(** * Partitioning Around Medoids: a shallow embedding of [cluster_PAM]

    The development follows [Algorytm_PAM.py].  A two-dimensional array is
    of dtype [float64], of an integer dtype, or of a dtype that is not
    numeric (object, str); other dtypes (bool, complex, narrower floats)
    are outside the model.  A finite [float64] entry is idealised as a real
    number and [NaN] is the one special value the validator looks for:
    rounding, overflow, underflow and infinite entries are outside the
    model, so what is proved about distances of [float64] arrays is proved
    of exact distances.  Integer arrays are subtracted in their own dtype,
    with wrap-around, as NumPy does, and [np.isnan] fails on a dtype that
    is not numeric.  The list that [np.random.choice] hands back is an
    argument of the embedded function; a boolean size makes the draw fail.
    The optimiser and the finaliser only add and compare costs, so they are
    written once over an arbitrary ordered cost type and used at [R] (the
    program) and at [Z] (to run examples). *)

From Stdlib Require Import String List Arith Bool ZArith Lia Permutation.
From Stdlib Require Import Reals Lra.
Import ListNotations.

Set Implicit Arguments.

(** ** Exceptions and outcomes *)

Inductive exn : Type :=
| ValueError (msg : string)
| TypeError (msg : string)
| IndexError.

(** A Python computation returns, raises, or (for the [while True] loop run
    with a bound on the number of passes) is cut off. *)
Inductive outcome (A : Type) : Type :=
| Returned (a : A)
| Raised (e : exn)
| OutOfFuel.

Arguments Returned {A} a.
Arguments Raised {A} e.
Arguments OutOfFuel {A}.

Definition bind {A B : Type} (c : outcome A) (f : A -> outcome B) : outcome B :=
  match c with
  | Returned a => f a
  | Raised e => Raised e
  | OutOfFuel => OutOfFuel
  end.

Notation "x <- c ;; k" := (bind c (fun x => k))
  (at level 61, c at next level, right associativity).
Notation "' p <- c ;; k" := (bind c (fun x => let p := x in k))
  (at level 61, p pattern, c at next level, right associativity).

Fixpoint mapM {A B : Type} (f : A -> outcome B) (l : list A) : outcome (list B) :=
  match l with
  | [] => Returned []
  | a :: l' => b <- f a ;; bs <- mapM f l' ;; Returned (b :: bs)
  end.

(** ** Python list operations on the medoid list *)

(** [x in l] *)
Fixpoint py_in (x : nat) (l : list nat) : bool :=
  match l with
  | [] => false
  | y :: l' => (x =? y) || py_in x l'
  end.

(** [l.remove(x)]: drops the first occurrence, [ValueError] when absent. *)
Fixpoint py_remove (x : nat) (l : list nat) : outcome (list nat) :=
  match l with
  | [] => Raised (ValueError "list.remove(x): x not in list")
  | y :: l' =>
      if x =? y then Returned l'
      else r <- py_remove x l' ;; Returned (y :: r)
  end.

(** [set(a) == set(b)] *)
Definition subset_b (a b : list nat) : bool := forallb (fun x => py_in x b) a.
Definition set_eqb (a b : list nat) : bool := subset_b a b && subset_b b a.

(** [m'] is [m] with medoid [x] replaced by [c]. *)
Definition swapped (m : list nat) (x c : nat) (m' : list nat) : Prop :=
  Permutation (x :: m') (c :: m).

(** ** Optimiser and finaliser over an ordered cost type *)

Section PAM.

Variable T : Type.
Variable tzero : T.
Variable tadd : T -> T -> T.
Variable tltb : T -> T -> bool.

(** [row[medoids]] for one row of [cost_matrix[:, medoids]]: an index past
    the end of the row raises [IndexError]. *)
Definition take_cols (medoids : list nat) (row : list T) : outcome (list T) :=
  mapM (fun j => match nth_error row j with
                 | Some x => Returned x
                 | None => Raised IndexError
                 end) medoids.

(** [cost_matrix[:, medoids]] *)
Definition sub_matrix (cost_matrix : list (list T)) (medoids : list nat)
  : outcome (list (list T)) :=
  mapM (take_cols medoids) cost_matrix.

Definition tmin (a b : T) : T := if tltb b a then b else a.

(** [np.min] of one row; a row of length zero has no minimum. *)
Definition np_min (row : list T) : outcome T :=
  match row with
  | [] => Raised (ValueError "zero-size array to reduction operation minimum which has no identity")
  | x :: xs => Returned (fold_left tmin xs x)
  end.

(** [np.sum] *)
Definition np_sum (v : list T) : T := fold_left tadd v tzero.

(** [np.sum(np.min(cost_matrix[:, medoids], axis=1))] *)
Definition total_cost (cost_matrix : list (list T)) (medoids : list nat) : outcome T :=
  sub <- sub_matrix cost_matrix medoids ;;
  mins <- mapM np_min sub ;;
  Returned (np_sum mins).

(** Index of the first minimum of [x :: xs]; [i] is the index of [x],
    [best] and [bi] the minimum so far and its index. *)
Fixpoint argmin_from (xs : list T) (i : nat) (best : T) (bi : nat) : nat :=
  match xs with
  | [] => bi
  | x :: xs' =>
      if tltb x best then argmin_from xs' (S i) x (S i)
      else argmin_from xs' (S i) best bi
  end.

(** [np.argmin] of one row: the first position holding the minimum. *)
Definition np_argmin (row : list T) : outcome nat :=
  match row with
  | [] => Raised (ValueError "attempt to get argmin of an empty sequence")
  | x :: xs => Returned (argmin_from xs 0 x 0)
  end.

Variable cost_matrix : list (list T).
Variable n_samples : nat.

(** The inner [for candidate in range(n_samples)] loop (lines 55-69) for one
    [medoid]; [medoids] is not modified while it runs. *)
Fixpoint scan (candidates : list nat) (medoids : list nat) (medoid : nat)
         (best_cost : T) (best_medoid : nat) : outcome (T * nat) :=
  match candidates with
  | [] => Returned (best_cost, best_medoid)
  | candidate :: rest =>
      if negb (py_in candidate medoids) then
        removed <- py_remove medoid medoids ;;
        let test_medoids := removed ++ [candidate] in
        test_cost <- total_cost cost_matrix test_medoids ;;
        if tltb test_cost best_cost
        then scan rest medoids medoid test_cost candidate
        else scan rest medoids medoid best_cost best_medoid
      else scan rest medoids medoid best_cost best_medoid
  end.

(** One iteration of [for medoid in medoids_before_this_iteration]
    (lines 52-73): scan the candidates, then remove [medoid] and append the
    best replacement. *)
Definition swap_medoid (st : list nat * T) (medoid : nat) : outcome (list nat * T) :=
  let '(medoids, best_cost) := st in
  '(best_cost', best_medoid) <- scan (seq 0 n_samples) medoids medoid best_cost medoid ;;
  removed <- py_remove medoid medoids ;;
  Returned (removed ++ [best_medoid], best_cost').

(** The [for] loop over the snapshot (lines 50-73). *)
Fixpoint pass (snapshot : list nat) (st : list nat * T) : outcome (list nat * T) :=
  match snapshot with
  | [] => Returned st
  | medoid :: rest => st' <- swap_medoid st medoid ;; pass rest st'
  end.

(** The [while True] loop (lines 46-77); [fuel] bounds the number of passes. *)
Fixpoint pam_loop (fuel : nat) (st : list nat * T) : outcome (list nat * T) :=
  match fuel with
  | O => OutOfFuel
  | S fuel' =>
      let medoids_before_this_iteration := fst st in
      st' <- pass medoids_before_this_iteration st ;;
      if set_eqb (fst st') medoids_before_this_iteration
      then Returned st'
      else pam_loop fuel' st'
  end.

(** Lines 43-77: first cost, then the loop. *)
Definition optimize (fuel : nat) (medoids : list nat) : outcome (list nat * T) :=
  best_cost <- total_cost cost_matrix medoids ;;
  pam_loop fuel (medoids, best_cost).

(** The states the optimiser goes through: the pair [(medoids, best_cost)]
    after each execution of lines 72-73, in order.  [pass_trace] and
    [pam_trace] follow [pass] and [pam_loop] and keep every state instead of
    the last one only. *)
Fixpoint pass_trace (snapshot : list nat) (st : list nat * T)
  : outcome (list (list nat * T)) :=
  match snapshot with
  | [] => Returned []
  | medoid :: rest =>
      st' <- swap_medoid st medoid ;;
      tr <- pass_trace rest st' ;;
      Returned (st' :: tr)
  end.

Fixpoint pam_trace (fuel : nat) (st : list nat * T)
  : outcome (list (list nat * T)) :=
  match fuel with
  | O => OutOfFuel
  | S fuel' =>
      tr <- pass_trace (fst st) st ;;
      let st' := last tr st in
      if set_eqb (fst st') (fst st)
      then Returned tr
      else tr' <- pam_trace fuel' st' ;; Returned (tr ++ tr')
  end.

(** The initial state followed by the state after every swap application. *)
Definition history (fuel : nat) (medoids : list nat) : outcome (list (list nat * T)) :=
  best_cost <- total_cost cost_matrix medoids ;;
  tr <- pam_trace fuel (medoids, best_cost) ;;
  Returned ((medoids, best_cost) :: tr).

(** Lines 80-84. *)
Definition finalize (medoids : list nat) : outcome (list nat * list nat * T) :=
  final_matrix <- sub_matrix cost_matrix medoids ;;
  mins <- mapM np_min final_matrix ;;
  let final_cost := np_sum mins in
  clusters <- mapM np_argmin final_matrix ;;
  Returned (medoids, clusters, final_cost).

(** *** Notions used to state the properties *)

(** Position [p] holds a value of [row] that none is below, and every
    earlier position holds a strictly larger one. *)
Definition first_min (d : T) (row : list T) (p : nat) : Prop :=
  p < length row /\
  (forall q, q < length row -> tltb (nth q row d) (nth p row d) = false) /\
  (forall q, q < p -> tltb (nth p row d) (nth q row d) = true).

(** Minimum of a non-empty row and the cost of a medoid list, as plain
    values. *)
Definition row_min (l : list T) : T :=
  match l with
  | [] => tzero
  | x :: xs => fold_left tmin xs x
  end.

Definition cost_of (medoids : list nat) : T :=
  np_sum (map (fun row => row_min (map (fun j => nth j row tzero) medoids)) cost_matrix).

(** An [n] by [n] matrix. *)
Definition square (n : nat) : Prop :=
  length cost_matrix = n /\ Forall (fun row => length row = n) cost_matrix.

(** [k] pairwise distinct row indices. *)
Definition valid_medoids (k : nat) (medoids : list nat) : Prop :=
  length medoids = k /\ NoDup medoids /\ Forall (fun i => i < n_samples) medoids.

(** The tracked cost is the cost of the tracked medoid list. *)
Definition consistent (k : nat) (st : list nat * T) : Prop :=
  valid_medoids k (fst st) /\ total_cost cost_matrix (fst st) = Returned (snd st).

(** [b] is not above [a]. *)
Definition tle (b a : T) : Prop := tltb a b = false.

(** Every state of [tr] is not above the one before it, starting at [st]. *)
Fixpoint non_increasing (st : list nat * T) (tr : list (list nat * T)) : Prop :=
  match tr with
  | [] => True
  | st' :: tr' => tle (snd st') (snd st) /\ non_increasing st' tr'
  end.

(** A pass either leaves the medoid set and the cost as they were, or ends
    strictly below the cost it started from. *)
Definition same_or_lower (st st' : list nat * T) : Prop :=
  (Permutation (fst st) (fst st') /\ snd st' = snd st) \/ tltb (snd st') (snd st) = true.

(** No replacement of one medoid by a point that is not a medoid costs
    strictly less than [best_cost]. *)
Definition no_better_swap (medoids : list nat) (best_cost : T) : Prop :=
  forall x c m' tc,
    In x medoids -> c < n_samples -> ~ In c medoids -> swapped medoids x c m' ->
    total_cost cost_matrix m' = Returned tc -> tltb tc best_cost = false.

(** All lists of [k] indices below [n_samples]. *)
Fixpoint all_lists (k : nat) : list (list nat) :=
  match k with
  | O => [[]]
  | S k' => flat_map (fun i => map (cons i) (all_lists k')) (seq 0 n_samples)
  end.

(** How many of them cost strictly less than [c]. *)
Definition below (k : nat) (c : T) : nat :=
  length (filter (fun m => tltb (cost_of m) c) (all_lists k)).

End PAM.

(** ** Python values at the interface *)

(** A [float64] entry. *)
Inductive float64 : Type :=
| Finite (r : R)
| NaN.

(** A NumPy array by number of dimensions; only a two-dimensional array has
    its entries read.  [Array2 ncols rows] is of dtype [float64] and has
    shape [(length rows, ncols)], each row holding [ncols] entries (nothing
    below depends on the rows being of one length).
    [Array2Int signed bits ncols rows] is of an integer dtype, signed or
    unsigned, [bits] wide ([uint8] is [Array2Int false 8]); its entries lie
    in the range of the dtype.  [Array2Other nrows ncols] is a
    two-dimensional array of a dtype that is not numeric (object, str); its
    entries are never read.  [ArrayN extra] has [3 + extra] dimensions. *)
Inductive ndarray : Type :=
| Array0 (x : float64)
| Array1 (v : list float64)
| Array2 (ncols : nat) (rows : list (list float64))
| Array2Int (signed : bool) (bits : nat) (ncols : nat) (rows : list (list Z))
| Array2Other (nrows ncols : nat)
| ArrayN (extra : nat).

(** The objects a caller may pass for [X] and [k]. *)
Inductive pyobj : Type :=
| PyNone
| PyBool (b : bool)
| PyInt (z : Z)
| PyFloat (x : float64)
| PyList (rows : list (list float64))
| NpInt (z : Z)
| NdArray (a : ndarray).

(** [len(X.shape)] *)
Definition ndim (a : ndarray) : nat :=
  match a with
  | Array0 _ => 0
  | Array1 _ => 1
  | Array2 _ _ => 2
  | Array2Int _ _ _ _ => 2
  | Array2Other _ _ => 2
  | ArrayN extra => 3 + extra
  end.

(** [X.shape[0]] of a two-dimensional array *)
Definition shape0 (a : ndarray) : nat :=
  match a with
  | Array2 _ rows => length rows
  | Array2Int _ _ _ rows => length rows
  | Array2Other nrows _ => nrows
  | _ => 0
  end.

(** [isinstance(k, int)]: [bool] is a subclass of [int]; NumPy scalars are not. *)
Definition isinstance_int (k : pyobj) : bool :=
  match k with
  | PyInt _ | PyBool _ => true
  | _ => false
  end.

(** The value of an [int] instance in comparisons and as a size. *)
Definition int_value (k : pyobj) : Z :=
  match k with
  | PyInt z => z
  | PyBool true => 1
  | _ => 0
  end.

Definition is_nan (x : float64) : bool :=
  match x with
  | NaN => true
  | Finite _ => false
  end.

(** [np.any(np.isnan(X))] *)
Definition any_isnan (rows : list (list float64)) : bool :=
  existsb (existsb is_nan) rows.

(** The number held by an entry; read only after the [NaN] check. *)
Definition real_of (x : float64) : R :=
  match x with
  | Finite r => r
  | NaN => 0%R
  end.

Definition reals (rows : list (list float64)) : list (list R) :=
  map (map real_of) rows.

(** ** Distance matrix (line 36) *)

(** [X[j] - X[i]] for two rows *)
Fixpoint vsub (a b : list R) : list R :=
  match a, b with
  | x :: a', y :: b' => (x - y)%R :: vsub a' b'
  | _, _ => []
  end.

(** [np.linalg.norm] of one row *)
Definition norm (v : list R) : R :=
  sqrt (fold_right (fun x acc => (x * x + acc)%R) 0%R v).

(** [[np.linalg.norm(X - X[i], axis=1) for i in range(n)]] *)
Definition distance_matrix (X : list (list R)) : list (list R) :=
  map (fun xi => map (fun xj => norm (vsub xj xi)) X) X.

(** The value an integer dtype keeps of [z]: arithmetic in the dtype wraps
    around modulo [2 ^ bits]. *)
Definition wrap (signed : bool) (bits : nat) (z : Z) : Z :=
  let m := (2 ^ Z.of_nat bits)%Z in
  if signed then ((z + m / 2) mod m - m / 2)%Z else (z mod m)%Z.

(** [X[j] - X[i]] for two rows of an integer array, computed in the dtype of
    the array and then converted to float by [np.linalg.norm]. *)
Fixpoint vsub_int (signed : bool) (bits : nat) (a b : list Z) : list R :=
  match a, b with
  | x :: a', y :: b' => IZR (wrap signed bits (x - y)) :: vsub_int signed bits a' b'
  | _, _ => []
  end.

(** Line 36 on an integer array. *)
Definition distance_matrix_int (signed : bool) (bits : nat) (X : list (list Z))
  : list (list R) :=
  map (fun xi => map (fun xj => norm (vsub_int signed bits xj xi)) X) X.

Definition Rltb (a b : R) : bool := if Rlt_dec a b then true else false.

(** ** The entry point *)

(** What a run leaves behind besides its result: the phases it entered and
    the line it printed. *)
Inductive event : Type :=
| BuildDistanceMatrix
| SearchMedoids
| AssignClusters
| Printed (text : string).

Definition run (A : Type) : Type := (list event * outcome A)%type.

Definition rbind {A B : Type} (c : run A) (f : A -> run B) : run B :=
  match c with
  | (log, Returned a) => let '(log', o) := f a in (log ++ log', o)
  | (log, Raised e) => (log, Raised e)
  | (log, OutOfFuel) => (log, OutOfFuel)
  end.

Notation "x <~ c ;; k" := (rbind c (fun x => k))
  (at level 61, c at next level, right associativity).

Definition enter (e : event) : run unit := ([e], Returned tt).
Definition lift {A : Type} (o : outcome A) : run A := ([], o).
Definition raise {A : Type} (e : exn) : run A := ([], Raised e).

(** [str(e)] *)
Definition exn_str (e : exn) : string :=
  match e with
  | ValueError msg => msg
  | TypeError msg => msg
  | IndexError => "index is out of bounds"
  end.

(** [except Exception as e: print(...); raise] *)
Definition try_except {A : Type} (c : run A) : run A :=
  match c with
  | (log, Raised e) => (log ++ [Printed (String.append "An error occurred: " (exn_str e))], Raised e)
  | other => other
  end.

Definition msg_not_array : string := "Input data X must be a NumPy array.".
Definition msg_not_2d : string := "Input data X must be a 2D NumPy array (n_samples, n_features).".
Definition msg_bad_k : string := "Number of clusters k must be a positive integer.".
Definition msg_k_too_large : string := "Number of clusters k cannot exceed the number of data points.".
Definition msg_nan : string := "Input data X contains NaN values. Please handle missing data before running the algorithm.".

(** The messages of the two [TypeError]s that NumPy itself raises; their
    wording is NumPy's. *)
Definition msg_isnan_unsupported : string := "ufunc 'isnan' not supported for the input types, and the inputs could not be safely coerced to any supported types according to the casting rule ''safe''".
Definition msg_bool_size : string := "expected a sequence of integers or a single integer, got 'True'".

(** [np.any(np.isnan(X))] (line 32): [np.isnan] is defined on numeric
    dtypes only; an integer entry is never NaN.  Entries of arrays of three
    or more dimensions are not modelled; the line is reached by
    two-dimensional arrays only. *)
Definition np_any_isnan (a : ndarray) : outcome bool :=
  match a with
  | Array0 x => Returned (is_nan x)
  | Array1 v => Returned (existsb is_nan v)
  | Array2 _ rows => Returned (any_isnan rows)
  | Array2Int _ _ _ _ => Returned false
  | Array2Other _ _ => Raised (TypeError msg_isnan_unsupported)
  | ArrayN _ => Returned false
  end.

(** Line 36 on an array that passed line 32. *)
Definition build_cost_matrix (a : ndarray) : list (list R) :=
  match a with
  | Array2 _ rows => distance_matrix (reals rows)
  | Array2Int signed bits _ rows => distance_matrix_int signed bits rows
  | _ => []
  end.

(** [np.random.choice(n_samples, k, replace=False)] (line 40) for a [k] that
    passed validation: NumPy refuses a boolean as the size of the sample;
    for an integer it hands back [choice]. *)
Definition np_random_choice (n_samples : nat) (k : pyobj) (choice : list nat)
  : outcome (list nat) :=
  match k with
  | PyBool _ => Raised (TypeError msg_bool_size)
  | _ => Returned choice
  end.

(** [cluster_PAM(X, k)].  [choice] is the list that
    [np.random.choice(n_samples, k, replace=False)] hands back on this run;
    [fuel] bounds the passes of the [while True] loop. *)
Definition cluster_PAM (fuel : nat) (choice : list nat) (X k : pyobj)
  : run (list nat * list nat * R) :=
  try_except
    match X with
    | NdArray a =>
        if negb (ndim a =? 2) then raise (ValueError msg_not_2d)
        else if negb (isinstance_int k) || (int_value k <=? 0)%Z
        then raise (ValueError msg_bad_k)
        else if (int_value k >? Z.of_nat (shape0 a))%Z
        then raise (ValueError msg_k_too_large)
        else
          has_nan <~ lift (np_any_isnan a) ;;
          if (has_nan : bool) then raise (ValueError msg_nan)
          else
          _ <~ enter BuildDistanceMatrix ;;
          let cost_matrix := build_cost_matrix a in
          let n_samples := shape0 a in
          _ <~ enter SearchMedoids ;;
          medoids <~ lift (np_random_choice n_samples k choice) ;;
          st <~ lift (optimize 0%R Rplus Rltb cost_matrix n_samples fuel medoids) ;;
          _ <~ enter AssignClusters ;;
          lift (finalize 0%R Rplus Rltb cost_matrix (fst st))
    | _ => raise (ValueError msg_not_array)
    end.

(** ** Inputs *)

(** What [np.random.choice(n, k, replace=False)] may return. *)
Definition is_choice (n k : nat) (choice : list nat) : Prop :=
  length choice = k /\ NoDup choice /\ Forall (fun i => i < n) choice.

(** A two-dimensional NumPy array of a numeric dtype. *)
Definition is_matrix (X : pyobj) : bool :=
  match X with
  | NdArray (Array2 _ _) => true
  | NdArray (Array2Int _ _ _ _) => true
  | _ => false
  end.


Definition is_bool (k : pyobj) : bool :=
  match k with
  | PyBool _ => true
  | _ => false
  end.

(** In Python [True] is the integer 1. *)
Definition positive_integer (k : pyobj) : bool :=
  isinstance_int k && (0 <? int_value k)%Z.

(** The number of rows of a numeric matrix. *)
Definition n_rows (X : pyobj) : nat :=
  match X with
  | NdArray (Array2 _ rows) => length rows
  | NdArray (Array2Int _ _ _ rows) => length rows
  | _ => 0
  end.

(** A [float64] matrix with a NaN entry. *)
Definition has_nan (X : pyobj) : bool :=
  match X with
  | NdArray (Array2 _ rows) => any_isnan rows
  | _ => false
  end.

(** The preconditions of the specification, [k] being an integer in
    Python's sense: a numeric matrix, a positive integer [k] not above the
    number of rows, no [NaN]. *)
Definition meets_preconditions (X k : pyobj) : bool :=
  is_matrix X && positive_integer k
  && (int_value k <=? Z.of_nat (n_rows X))%Z
  && negb (has_nan X).


(** A valid input: the preconditions hold and [k] is an [int] proper, not
    the boolean that [isinstance(k, int)] lets through. *)
Definition valid_input (X k : pyobj) : bool :=
  meets_preconditions X k && negb (is_bool k).

(** [D[i][j]] *)
Definition entry (D : list (list R)) (i j : nat) : R := nth j (nth i D []) 0%R.

(** The distance matrix [D] of a run on [X]. *)
Definition D_of (X : pyobj) : list (list R) :=
  match X with
  | NdArray a => build_cost_matrix a
  | _ => []
  end.

(** [k] as a size. *)
Definition k_of (k : pyobj) : nat := Z.to_nat (int_value k).

(** The call [cluster_PAM(X, k)] whose random draw is [choice] returns [r]. *)
Definition returns (X k : pyobj) (choice : list nat) (r : list nat * list nat * R) : Prop :=
  exists fuel, snd (cluster_PAM fuel choice X k) = Returned r.

(** The optimiser states of that call. *)
Definition optimizer_history (fuel : nat) (choice : list nat) (X : pyobj)
  : outcome (list (list nat * R)) :=
  history 0%R Rplus Rltb (D_of X) (n_rows X) fuel choice.

(** The cost of a medoid list on [X]. *)
Definition cost_on (X : pyobj) (medoids : list nat) : outcome R :=
  total_cost 0%R Rplus Rltb (D_of X) medoids.

(** ** Concrete inputs *)

(** Two points on a line. *)
Definition X_pair : pyobj := NdArray (Array2 1 [[Finite 0]; [Finite 1]]).

(** Three points on a line, the first one halfway between the other two. *)
Definition X_tie : pyobj := NdArray (Array2 1 [[Finite 1]; [Finite 0]; [Finite 2]]).

(** The scenario of the specification: two pairs of neighbours. *)
Definition X_scenario : pyobj :=
  NdArray (Array2 2 [[Finite 0; Finite 0]; [Finite 0; Finite 1];
                     [Finite 10; Finite 10]; [Finite 10; Finite 11]]).

(** Three points on a line held as unsigned bytes. *)
Definition X_uint8 : pyobj := NdArray (Array2Int false 8 1 [[0]; [1]; [255]]%Z).


(** Points 0 and 1 form one pair of [X_scenario], points 2 and 3 the other. *)
Definition same_pair (i m : nat) : bool := Bool.eqb (i <? 2) (m <? 2).

(** The distances of [X_tie] as integers, to run the optimiser. *)
Definition D_tie_Z : list (list Z) := [[0; 1; 1]; [1; 0; 2]; [1; 2; 0]]%Z.

(** Integer stand-ins for the distances of [X_scenario]: 13, 14 and 15 for
    the square roots of 181, 200 and 221. *)
Definition D_scenario_Z : list (list Z) :=
  [[0; 1; 14; 15]; [1; 0; 13; 14]; [14; 13; 0; 1]; [15; 14; 1; 0]]%Z.

(** The distance from every point to the medoid that its label designates. *)
Definition assigned_distances (D : list (list R)) (M C : list nat) : list R :=
  map (fun ic => entry D (fst ic) (nth (snd ic) M 0)) (combine (seq 0 (length D)) C).

(** The run that prints the message of a [ValueError] and raises it, having
    done nothing else. *)
Definition rejected (msg : string) : run (list nat * list nat * R) :=
  ([Printed (String.append "An error occurred: " msg)], Raised (ValueError msg)).

(** The run of a call that went through all its phases and returned [r]. *)
Definition completed (r : list nat * list nat * R) : run (list nat * list nat * R) :=
  ([BuildDistanceMatrix; SearchMedoids; AssignClusters], Returned r).

(** * Properties *)

Unset Implicit Arguments.

(** ** The outcome monad and the list operations *)

Lemma bind_Returned {A B : Type} (c : outcome A) (f : A -> outcome B) (b : B) :
  bind c f = Returned b -> exists a, c = Returned a /\ f a = Returned b.
Proof.
  destruct c as [a| |]; simpl; intros H; try discriminate.
  exists a; split; [reflexivity | exact H].
Qed.

Lemma mapM_pure {A B : Type} (f : A -> outcome B) (g : A -> B) (l : list A) :
  (forall a, In a l -> f a = Returned (g a)) ->
  mapM f l = Returned (map g l).
Proof.
  induction l as [|a l IH]; intros H; simpl.
  - reflexivity.
  - rewrite (H a (or_introl eq_refl)); simpl.
    rewrite IH by (intros; apply H; right; assumption).
    reflexivity.
Qed.

Lemma py_in_spec (x : nat) (l : list nat) : py_in x l = true <-> In x l.
Proof.
  induction l as [|y l IH]; simpl.
  - split; [discriminate | tauto].
  - rewrite orb_true_iff, Nat.eqb_eq, IH. split; intros [H|H]; auto.
Qed.

Lemma py_in_false (x : nat) (l : list nat) : py_in x l = false <-> ~ In x l.
Proof.
  rewrite <- py_in_spec. destruct (py_in x l); split; congruence.
Qed.

Lemma py_remove_In (x : nat) (l : list nat) :
  In x l -> exists r, py_remove x l = Returned r /\ Permutation l (x :: r).
Proof.
  induction l as [|y l IH]; simpl; intros H; [contradiction|].
  destruct (Nat.eqb_spec x y) as [->|Hne].
  - exists l; split; reflexivity.
  - destruct H as [H|H]; [congruence|].
    destruct (IH H) as (r & -> & Hp). simpl.
    exists (y :: r); split; [reflexivity|].
    rewrite Hp. apply perm_swap.
Qed.

Lemma subset_b_spec (a b : list nat) : subset_b a b = true <-> incl a b.
Proof.
  unfold subset_b. rewrite forallb_forall. unfold incl.
  split; intros H x Hx; apply py_in_spec, H, Hx.
Qed.

Lemma set_eqb_Permutation (a b : list nat) : Permutation a b -> set_eqb b a = true.
Proof.
  intros Hp. unfold set_eqb. apply andb_true_iff; split; apply subset_b_spec;
    intros x Hx.
  - apply Permutation_in with b; [symmetry; exact Hp | exact Hx].
  - apply Permutation_in with a; assumption.
Qed.

Lemma filter_shrinks {A : Type} (p q : A -> bool) (l : list A) (y : A) :
  (forall x, q x = true -> p x = true) ->
  In y l -> p y = true -> q y = false ->
  length (filter q l) < length (filter p l).
Proof.
  intros Hqp. 
  assert (Hle : forall l', length (filter q l') <= length (filter p l')).
  { induction l' as [|x l' IH]; simpl; [lia|].
    destruct (q x) eqn:Hq.
    - rewrite (Hqp x Hq). simpl. lia.
    - destruct (p x); simpl; lia. }
  induction l as [|x l IH]; simpl; intros Hin Hp Hq; [contradiction|].
  destruct Hin as [->|Hin].
  - rewrite Hp, Hq. simpl. specialize (Hle l). lia.
  - specialize (IH Hin Hp Hq). destruct (q x) eqn:Hqx.
    + rewrite (Hqp x Hqx). simpl. lia.
    + destruct (p x); simpl; lia.
Qed.

(** ** The definitions run *)

Example optimize_tie_Z :
  optimize 0%Z Z.add Z.ltb D_tie_Z 3 1 [2; 1] = Returned ([2; 1], 1%Z).
Proof. reflexivity. Qed.

Example finalize_tie_Z :
  finalize 0%Z Z.add Z.ltb D_tie_Z [2; 1] = Returned ([2; 1], [0; 1; 0], 1%Z).
Proof. reflexivity. Qed.

Example optimize_scenario_Z :
  optimize 0%Z Z.add Z.ltb D_scenario_Z 4 2 [0; 1] = Returned ([2; 1], 2%Z) /\
  optimize 0%Z Z.add Z.ltb D_scenario_Z 4 1 [0; 1] = OutOfFuel /\
  history 0%Z Z.add Z.ltb D_scenario_Z 4 2 [0; 1] =
    Returned [([0; 1], 27%Z); ([1; 2], 2%Z); ([2; 1], 2%Z); ([1; 2], 2%Z); ([2; 1], 2%Z)].
Proof. repeat split; reflexivity. Qed.

Example remove_absent_Z :
  optimize 0%Z Z.add Z.ltb D_tie_Z 3 1 [2; 7] = Raised IndexError /\
  py_remove 5 [2; 1] = Raised (ValueError "list.remove(x): x not in list").
Proof. split; reflexivity. Qed.

(** ** The optimiser over a strict total order *)

Section PAM_facts.

Variable T : Type.
Variable tzero : T.
Variable tadd : T -> T -> T.
Variable tltb : T -> T -> bool.

Hypothesis tltb_irrefl : forall a, tltb a a = false.
Hypothesis tltb_trans : forall a b c, tltb a b = true -> tltb b c = true -> tltb a c = true.
Hypothesis tltb_total : forall a b, tltb a b = false -> tltb b a = false -> a = b.

Variable D : list (list T).
Variable n k : nat.

Hypothesis D_square : square D n.
Hypothesis k_pos : 0 < k.

Let cost := total_cost tzero tadd tltb D.
Let valid := valid_medoids n k.
Let ok := consistent tzero tadd tltb D n k.

Lemma tltb_asym (a b : T) : tltb a b = true -> tltb b a = false.
Proof.
  intros H. destruct (tltb b a) eqn:E; [|reflexivity].
  rewrite <- (tltb_irrefl a). symmetry. apply tltb_trans with b; assumption.
Qed.

(** *** Minimum of a row *)

Lemma fold_tmin_In (xs : list T) (x : T) : In (fold_left (tmin tltb) xs x) (x :: xs).
Proof.
  revert x; induction xs as [|y xs IH]; intros x; simpl.
  - left; reflexivity.
  - destruct (IH (tmin tltb x y)) as [H|H].
    + rewrite <- H. unfold tmin. destruct (tltb y x); auto.
    + right; right; exact H.
Qed.

Lemma tltb_false_trans (a b c : T) :
  tltb a b = false -> tltb b c = false -> tltb a c = false.
Proof.
  intros Hab Hbc. destruct (tltb a c) eqn:Hac; [|reflexivity].
  destruct (tltb b a) eqn:Hba.
  - rewrite (tltb_trans _ _ _ Hba Hac) in Hbc. discriminate.
  - assert (a = b) by (apply tltb_total; assumption). congruence.
Qed.

Lemma tmin_lower_l (x z : T) : tltb x (tmin tltb x z) = false.
Proof.
  unfold tmin. destruct (tltb z x) eqn:E; [apply tltb_asym, E | apply tltb_irrefl].
Qed.

Lemma tmin_lower_r (x z : T) : tltb z (tmin tltb x z) = false.
Proof.
  unfold tmin. destruct (tltb z x) eqn:E; [apply tltb_irrefl | exact E].
Qed.

Lemma fold_tmin_lower_acc (xs : list T) (x : T) :
  tltb x (fold_left (tmin tltb) xs x) = false.
Proof.
  revert x. induction xs as [|z xs IH]; intros x; simpl.
  - apply tltb_irrefl.
  - apply tltb_false_trans with (tmin tltb x z); [apply tmin_lower_l | apply IH].
Qed.

Lemma fold_tmin_lower (xs : list T) (x y : T) :
  In y (x :: xs) -> tltb y (fold_left (tmin tltb) xs x) = false.
Proof.
  revert x. induction xs as [|z xs IH]; intros x Hin.
  - simpl in *. destruct Hin as [->|[]]. apply tltb_irrefl.
  - destruct Hin as [->|[->|Hin]].
    + apply fold_tmin_lower_acc.
    + simpl. apply tltb_false_trans with (tmin tltb x y);
        [apply tmin_lower_r | apply fold_tmin_lower_acc].
    + simpl. apply IH. right; exact Hin.
Qed.

Lemma row_min_Permutation (l l' : list T) :
  Permutation l l' -> row_min tzero tltb l = row_min tzero tltb l'.
Proof.
  intros Hp. destruct l as [|x xs].
  - apply Permutation_nil in Hp. subst; reflexivity.
  - destruct l' as [|x' xs'].
    + symmetry in Hp. apply Permutation_nil in Hp. discriminate.
    + simpl. apply tltb_total.
      * apply fold_tmin_lower.
        apply Permutation_in with (x :: xs); [exact Hp | apply fold_tmin_In].
      * apply fold_tmin_lower.
        apply Permutation_in with (x' :: xs'); [symmetry; exact Hp | apply fold_tmin_In].
Qed.

Lemma cost_of_Permutation (m m' : list nat) :
  Permutation m m' -> cost_of tzero tadd tltb D m = cost_of tzero tadd tltb D m'.
Proof.
  intros Hp. unfold cost_of. f_equal. apply map_ext. intros row.
  apply row_min_Permutation. apply Permutation_map. exact Hp.
Qed.

(** *** The cost of a valid medoid list is computed without an exception *)

Lemma take_cols_pure (m : list nat) (row : list T) :
  Forall (fun j => j < length row) m ->
  take_cols m row = Returned (map (fun j => nth j row tzero) m).
Proof.
  intros H. unfold take_cols. apply mapM_pure. intros j Hj.
  rewrite Forall_forall in H. specialize (H j Hj).
  destruct (nth_error row j) as [x|] eqn:E.
  - rewrite (nth_error_nth _ _ tzero E). reflexivity.
  - apply nth_error_None in E. lia.
Qed.

Lemma total_cost_pure (m : list nat) :
  m <> [] -> Forall (fun j => j < n) m ->
  cost m = Returned (cost_of tzero tadd tltb D m).
Proof.
  intros Hne Hm. destruct D_square as [_ Hrows]. unfold cost, total_cost, sub_matrix.
  rewrite (mapM_pure (take_cols m) (fun row => map (fun j => nth j row tzero) m)).
  - simpl. rewrite (mapM_pure (np_min tltb) (row_min tzero tltb)).
    + simpl. unfold cost_of. rewrite map_map. reflexivity.
    + intros l Hl. apply in_map_iff in Hl. destruct Hl as (row & <- & _).
      destruct m; [congruence|]. reflexivity.
  - intros row Hrow. apply take_cols_pure.
    rewrite Forall_forall in Hrows. rewrite (Hrows row Hrow). exact Hm.
Qed.

Lemma valid_nonempty (m : list nat) : valid m -> m <> [].
Proof.
  intros (Hl & _) ->. simpl in Hl. lia.
Qed.

Lemma valid_cost (m : list nat) :
  valid m -> cost m = Returned (cost_of tzero tadd tltb D m).
Proof.
  intros Hv. apply total_cost_pure; [apply valid_nonempty, Hv | apply Hv].
Qed.

Lemma valid_Permutation (m m' : list nat) :
  Permutation m m' -> valid m -> valid m'.
Proof.
  intros Hp (Hl & Hnd & Hb). repeat split.
  - rewrite <- Hl. symmetry. apply Permutation_length, Hp.
  - apply Permutation_NoDup with m; assumption.
  - apply Permutation_Forall with m; assumption.
Qed.

(** Replacing medoid [x] by a point [c] that is not a medoid. *)
Lemma valid_swap (m r : list nat) (x c : nat) :
  valid m -> Permutation m (x :: r) -> c < n -> ~ In c m -> valid (r ++ [c]).
Proof.
  intros Hv Hp Hc Hnin.
  apply valid_Permutation with (c :: r).
  { apply Permutation_cons_append. }
  pose proof (valid_Permutation _ _ Hp Hv) as (Hl & Hnd & Hb).
  repeat split.
  - simpl in *. exact Hl.
  - constructor.
    + intros Hin. apply Hnin. apply Permutation_in with (x :: r);
        [symmetry; exact Hp | right; exact Hin].
    + inversion Hnd; assumption.
  - constructor; [exact Hc | inversion Hb; assumption].
Qed.

Lemma in_all_lists (m : list nat) :
  Forall (fun i => i < n) m -> In m (all_lists n (length m)).
Proof.
  induction m as [|i m IH]; intros Hb; simpl.
  - left; reflexivity.
  - inversion Hb as [|? ? Hi Hb']; subst. apply in_flat_map. exists i. split.
    + apply in_seq. lia.
    + apply in_map. apply IH. exact Hb'.
Qed.

Lemma valid_in_all_lists (m : list nat) : valid m -> In m (all_lists n k).
Proof.
  intros (Hl & _ & Hb). rewrite <- Hl. apply in_all_lists. exact Hb.
Qed.

(** *** One scan, one swap application *)

Lemma scan_spec (cands m r : list nat) (x : nat) :
  valid m -> py_remove x m = Returned r -> Permutation m (x :: r) ->
  Forall (fun c => c < n) cands ->
  forall b bm, exists b' bm',
    scan tzero tadd tltb D cands m x b bm = Returned (b', bm') /\
    ((b' = b /\ bm' = bm) \/
     (tltb b' b = true /\ bm' < n /\ ~ In bm' m /\ cost (r ++ [bm']) = Returned b')).
Proof.
  intros Hv Hrem Hp. induction cands as [|c cands IH]; intros Hc b bm.
  - exists b, bm. split; [reflexivity | left; split; reflexivity].
  - inversion Hc as [|? ? Hcn Hc']; subst. simpl.
    destruct (py_in c m) eqn:Hin; simpl.
    + apply IH; assumption.
    + apply py_in_false in Hin. rewrite Hrem. simpl.
      pose proof (valid_swap m r x c Hv Hp Hcn Hin) as Hv'.
      fold cost. rewrite (valid_cost _ Hv'). simpl.
      destruct (tltb (cost_of tzero tadd tltb D (r ++ [c])) b) eqn:Hlt.
      * destruct (IH Hc' (cost_of tzero tadd tltb D (r ++ [c])) c)
          as (b' & bm' & Hs & [[-> ->]|(Hlt' & Hn' & Hnin' & Hcost')]).
        -- exists (cost_of tzero tadd tltb D (r ++ [c])), c. split; [exact Hs|].
           right. repeat split; try assumption. apply valid_cost, Hv'.
        -- exists b', bm'. split; [exact Hs|]. right. repeat split; try assumption.
           apply tltb_trans with (cost_of tzero tadd tltb D (r ++ [c])); assumption.
      * apply IH; assumption.
Qed.

Lemma swap_medoid_spec (st : list nat * T) (x : nat) :
  ok st -> In x (fst st) ->
  exists st', swap_medoid tzero tadd tltb D n st x = Returned st' /\ ok st' /\
    ((Permutation (fst st) (fst st') /\ snd st' = snd st) \/
     (tltb (snd st') (snd st) = true /\
      exists c, c < n /\ ~ In c (fst st) /\ swapped (fst st) x c (fst st'))) /\
    (forall y, In y (fst st) -> y <> x -> In y (fst st')).
Proof.
  destruct st as [m b]. simpl. intros [Hv Hcost] Hx. simpl in Hv, Hcost.
  destruct (py_remove_In x m Hx) as (r & Hrem & Hp).
  assert (Hseq : Forall (fun c => c < n) (seq 0 n)).
  { apply Forall_forall. intros c Hc. apply in_seq in Hc. lia. }
  destruct (scan_spec (seq 0 n) m r x Hv Hrem Hp Hseq b x) as (b' & bm' & Hs & Hcase).
  unfold swap_medoid. rewrite Hs. simpl. rewrite Hrem. simpl.
  exists (r ++ [bm'], b'). split; [reflexivity|].
  assert (Hkeep : forall y, In y m -> y <> x -> In y (r ++ [bm'])).
  { intros y Hy Hne. apply in_or_app. left.
    apply (Permutation_in _ Hp) in Hy. destruct Hy as [Hy|Hy]; [congruence | exact Hy]. }
  destruct Hcase as [[-> ->]|(Hlt & Hn' & Hnin' & Hcost')].
  - assert (Hp' : Permutation m (r ++ [x])).
    { rewrite Hp. apply Permutation_cons_append. }
    split; [|split; [left; split; [exact Hp' | reflexivity] | exact Hkeep]].
    split; simpl.
    + apply valid_Permutation with m; assumption.
    + fold cost in Hcost |- *.
      rewrite (valid_cost _ (valid_Permutation _ _ Hp' Hv)).
      rewrite <- (cost_of_Permutation _ _ Hp').
      rewrite <- (valid_cost _ Hv). exact Hcost.
  - split; [|split; [right; split; [exact Hlt|] | exact Hkeep]].
    + split; simpl; [|exact Hcost'].
      apply valid_swap with m x; assumption.
    + exists bm'. repeat split; try assumption. unfold swapped. simpl.
      rewrite Hp. rewrite <- Permutation_cons_append.
      apply perm_swap.
Qed.

Lemma consistent_cost_of (st : list nat * T) :
  ok st -> cost_of tzero tadd tltb D (fst st) = snd st.
Proof.
  intros [Hv Hc]. fold cost in Hc. rewrite (valid_cost _ Hv) in Hc. congruence.
Qed.

(** *** One pass *)

Lemma last_cons_default {A : Type} (l : list A) (a d : A) : last (a :: l) d = last l a.
Proof.
  revert a d. induction l as [|b l IH]; intros a d; [reflexivity|].
  change (last (a :: b :: l) d) with (last (b :: l) d).
  rewrite (IH b d), (IH b a). reflexivity.
Qed.

Lemma last_app_default {A : Type} (l l' : list A) (d : A) :
  last (l ++ l') d = last l' (last l d).
Proof.
  revert d. induction l as [|a l IH]; intros d; [reflexivity|].
  simpl app. rewrite !last_cons_default. apply IH.
Qed.

Lemma pass_trace_last (snap : list nat) (st : list nat * T) :
  pass tzero tadd tltb D n snap st =
  (tr <- pass_trace tzero tadd tltb D n snap st ;; Returned (last tr st)).
Proof.
  revert st. induction snap as [|x snap IH]; intros st; [reflexivity|].
  simpl pass. simpl pass_trace.
  destruct (swap_medoid tzero tadd tltb D n st x) as [st'| |]; simpl; try reflexivity.
  rewrite IH. destruct (pass_trace tzero tadd tltb D n snap st') as [tr| |]; cbn [bind];
    try reflexivity.
  rewrite last_cons_default. reflexivity.
Qed.

Lemma pam_trace_last (fuel : nat) (st : list nat * T) :
  pam_loop tzero tadd tltb D n fuel st =
  (tr <- pam_trace tzero tadd tltb D n fuel st ;; Returned (last tr st)).
Proof.
  revert st. induction fuel as [|fuel IH]; intros st; [reflexivity|].
  simpl pam_loop. simpl pam_trace. rewrite pass_trace_last.
  destruct (pass_trace tzero tadd tltb D n (fst st) st) as [tr| |]; simpl; try reflexivity.
  destruct (set_eqb (fst (last tr st)) (fst st)); [reflexivity|].
  rewrite IH.
  destruct (pam_trace tzero tadd tltb D n fuel (last tr st)) as [tr'| |]; cbn [bind];
    try reflexivity.
  rewrite last_app_default. reflexivity.
Qed.

Lemma non_increasing_app (st : list nat * T) (tr tr' : list (list nat * T)) :
  non_increasing tltb st tr -> non_increasing tltb (last tr st) tr' ->
  non_increasing tltb st (tr ++ tr').
Proof.
  revert st. induction tr as [|s tr IH]; intros st H H'; [exact H'|].
  rewrite last_cons_default in H'. destruct H as [H1 H2].
  split; [exact H1|]. apply IH; assumption.
Qed.

Lemma pass_trace_spec (snap : list nat) :
  forall st, ok st -> NoDup snap -> incl snap (fst st) ->
  exists tr, pass_trace tzero tadd tltb D n snap st = Returned tr /\
    length tr = length snap /\ Forall ok tr /\ non_increasing tltb st tr /\
    same_or_lower tltb st (last tr st).
Proof.
  induction snap as [|x snap IH]; intros st Hok Hnd Hincl.
  - exists []. simpl. repeat split; auto. left. split; reflexivity.
  - inversion Hnd as [|? ? Hx Hnd']; subst.
    destruct (swap_medoid_spec st x Hok (Hincl x (or_introl eq_refl)))
      as (st' & Hsw & Hok' & Hcase & Hkeep).
    assert (Hincl' : incl snap (fst st')).
    { intros y Hy. apply Hkeep; [apply Hincl; right; exact Hy |].
      intros ->. contradiction. }
    destruct (IH st' Hok' Hnd' Hincl') as (tr & Htr & Hlen & Hall & Hmono & Hlast).
    exists (st' :: tr). rewrite last_cons_default.
    split; [simpl pass_trace; rewrite Hsw; cbn [bind]; rewrite Htr; reflexivity|].
    split; [simpl; lia|]. split; [constructor; assumption|].
    split.
    + split; [|exact Hmono]. unfold tle.
      destruct Hcase as [[_ ->]|[Hlt _]]; [apply tltb_irrefl | apply tltb_asym, Hlt].
    + destruct Hcase as [[Hp He]|[Hlt _]]; destruct Hlast as [[Hp' He']|Hlt'].
      * left. split; [rewrite Hp; exact Hp' | congruence].
      * right. rewrite <- He. exact Hlt'.
      * right. rewrite He'. exact Hlt.
      * right. apply tltb_trans with (snd st'); assumption.
Qed.

Lemma ok_last (st : list nat * T) (tr : list (list nat * T)) :
  ok st -> Forall ok tr -> ok (last tr st).
Proof.
  revert st. induction tr as [|s tr IH]; intros st Hst Hall; [exact Hst|].
  rewrite last_cons_default. inversion Hall; subst. apply IH; assumption.
Qed.

(** *** The loop *)

Lemma below_shrinks (st st' : list nat * T) :
  ok st' -> tltb (snd st') (snd st) = true ->
  below tzero tadd tltb D n k (snd st') < below tzero tadd tltb D n k (snd st).
Proof.
  intros Hok' Hlt. unfold below.
  apply filter_shrinks with (y := fst st').
  - intros m Hm. apply tltb_trans with (snd st'); assumption.
  - apply valid_in_all_lists, Hok'.
  - rewrite (consistent_cost_of _ Hok'). exact Hlt.
  - rewrite (consistent_cost_of _ Hok'). apply tltb_irrefl.
Qed.

Lemma pam_trace_terminates (fuel : nat) :
  forall st, ok st -> below tzero tadd tltb D n k (snd st) < fuel ->
  exists tr, pam_trace tzero tadd tltb D n fuel st = Returned tr /\
    Forall ok tr /\ non_increasing tltb st tr.
Proof.
  induction fuel as [|fuel IH]; intros st Hok Hfuel; [lia|].
  destruct (pass_trace_spec (fst st) st Hok) as (tr & Htr & _ & Hall & Hmono & Hcase).
  { apply Hok. }
  { apply incl_refl. }
  simpl pam_trace. rewrite Htr. simpl.
  destruct (set_eqb (fst (last tr st)) (fst st)) eqn:Heq.
  - exists tr. repeat split; assumption.
  - destruct Hcase as [[Hp _]|Hlt].
    { rewrite (set_eqb_Permutation _ _ Hp) in Heq. discriminate. }
    pose proof (ok_last st tr Hok Hall) as Hok'.
    pose proof (below_shrinks st (last tr st) Hok' Hlt) as Hsh.
    destruct (IH (last tr st) Hok') as (tr' & Htr' & Hall' & Hmono'); [lia|].
    rewrite Htr'. simpl. exists (tr ++ tr'). split; [reflexivity|]. split.
    + apply Forall_app; split; assumption.
    + apply non_increasing_app; assumption.
Qed.

Lemma pam_trace_fuel (fuel fuel' : nat) (st : list nat * T) (tr : list (list nat * T)) :
  pam_trace tzero tadd tltb D n fuel st = Returned tr -> fuel <= fuel' ->
  pam_trace tzero tadd tltb D n fuel' st = Returned tr.
Proof.
  clear k_pos D_square.
  revert fuel' st tr. induction fuel as [|fuel IH]; intros fuel' st tr H Hle;
    [discriminate|].
  destruct fuel' as [|fuel']; [lia|]. simpl in H |- *.
  destruct (pass_trace tzero tadd tltb D n (fst st) st) as [tr0| |]; simpl in *;
    try discriminate.
  destruct (set_eqb (fst (last tr0 st)) (fst st)); [exact H|].
  destruct (pam_trace tzero tadd tltb D n fuel (last tr0 st)) as [tr1| |] eqn:E;
    simpl in H; try discriminate.
  rewrite (IH fuel' _ _ E) by lia. exact H.
Qed.

Lemma no_better_swap_Permutation (m m' : list nat) (b : T) :
  Permutation m m' ->
  no_better_swap tzero tadd tltb D n m b -> no_better_swap tzero tadd tltb D n m' b.
Proof.
  intros Hp H x c m'' tc Hx Hc Hnin Hsw Hcost.
  apply (H x c m'' tc).
  - apply Permutation_in with m'; [symmetry; exact Hp | exact Hx].
  - exact Hc.
  - intros Hin. apply Hnin. apply Permutation_in with m; assumption.
  - unfold swapped in *. rewrite Hsw. apply perm_skip. symmetry. exact Hp.
  - exact Hcost.
Qed.

Lemma pass_no_better (snap : list nat) :
  forall st, ok st -> NoDup snap -> incl snap (fst st) ->
  no_better_swap tzero tadd tltb D n (fst st) (snd st) ->
  exists st', pass tzero tadd tltb D n snap st = Returned st' /\ ok st' /\
    Permutation (fst st) (fst st') /\ snd st' = snd st.
Proof.
  induction snap as [|x snap IH]; intros st Hok Hnd Hincl Hnb.
  - exists st. split; [reflexivity|]. split; [exact Hok|]. split; reflexivity.
  - inversion Hnd as [|? ? Hx Hnd']; subst.
    destruct (swap_medoid_spec st x Hok (Hincl x (or_introl eq_refl)))
      as (st' & Hsw & Hok' & Hcase & Hkeep).
    destruct Hcase as [[Hp He]|[Hlt (c & Hc & Hnin & Hswapped)]].
    + destruct (IH st' Hok' Hnd') as (st'' & Hpass & Hok'' & Hp' & He').
      * intros y Hy. apply Hkeep; [apply Hincl; right; exact Hy |].
        intros ->. contradiction.
      * rewrite He. apply no_better_swap_Permutation with (fst st); assumption.
      * exists st''. simpl. rewrite Hsw. simpl. rewrite Hpass.
        split; [reflexivity|]. split; [exact Hok''|]. split.
        -- rewrite Hp. exact Hp'.
        -- congruence.
    + rewrite (Hnb x c (fst st') (snd st')) in Hlt; try assumption.
      * discriminate.
      * apply Hincl. left; reflexivity.
      * apply Hok'.
Qed.

Lemma pam_loop_one_pass (st : list nat * T) :
  ok st -> no_better_swap tzero tadd tltb D n (fst st) (snd st) ->
  exists st', pam_loop tzero tadd tltb D n 1 st = Returned st' /\
    Permutation (fst st) (fst st') /\ snd st' = snd st.
Proof.
  intros Hok Hnb.
  destruct (pass_no_better (fst st) st Hok) as (st' & Hpass & _ & Hp & He).
  { apply Hok. }
  { apply incl_refl. }
  { exact Hnb. }
  exists st'. simpl. rewrite Hpass. simpl.
  rewrite (set_eqb_Permutation _ _ Hp). split; [reflexivity|]. split; assumption.
Qed.

(** *** The finaliser *)

Lemma argmin_from_bound (xs : list T) (i : nat) (best : T) (bi : nat) :
  bi <= i -> argmin_from tltb xs i best bi <= i + length xs.
Proof.
  revert i best bi. induction xs as [|x xs IH]; intros i best bi Hbi; simpl.
  - lia.
  - destruct (tltb x best).
    + specialize (IH (S i) x (S i)). lia.
    + specialize (IH (S i) best bi). lia.
Qed.

Lemma finalize_spec (m : list nat) :
  valid m ->
  exists clusters,
    finalize tzero tadd tltb D m = Returned (m, clusters, cost_of tzero tadd tltb D m) /\
    length clusters = n /\ Forall (fun c => c < k) clusters.
Proof.
  intros Hv. pose proof Hv as (Hl & _ & Hb). destruct D_square as [HD Hrows].
  unfold finalize, sub_matrix.
  rewrite (mapM_pure (take_cols m) (fun row => map (fun j => nth j row tzero) m)).
  2:{ intros row Hrow. apply take_cols_pure.
      rewrite Forall_forall in Hrows. rewrite (Hrows row Hrow). exact Hb. }
  cbn [bind]. rewrite (mapM_pure (np_min tltb) (row_min tzero tltb)).
  2:{ intros l Hl'. apply in_map_iff in Hl'. destruct Hl' as (row & <- & _).
      destruct m; [simpl in Hl; lia | reflexivity]. }
  cbn [bind].
  set (am := fun l : list T => match l with [] => 0 | x :: xs => argmin_from tltb xs 0 x 0 end).
  rewrite (mapM_pure (np_argmin tltb) am).
  2:{ intros l Hl'. apply in_map_iff in Hl'. destruct Hl' as (row & <- & _).
      destruct m; [simpl in Hl; lia | reflexivity]. }
  cbn [bind]. eexists. split.
  - unfold cost_of.
    rewrite (map_map (fun row => map (fun j => nth j row tzero) m) (row_min tzero tltb)).
    reflexivity.
  - split; [rewrite !length_map; exact HD|].
    apply Forall_forall. intros c Hc. apply in_map_iff in Hc.
    destruct Hc as (l & <- & Hl'). apply in_map_iff in Hl'. destruct Hl' as (row & <- & _).
    destruct m as [|j m]; [simpl in Hl; lia|]. simpl.
    pose proof (argmin_from_bound (map (fun j0 => nth j0 row tzero) m) 0 (nth j row tzero) 0
                  (le_n 0)) as H.
    rewrite length_map in H. simpl in Hl. lia.
Qed.

End PAM_facts.

(** *** First minimum *)

Section Argmin_facts.

Variable T : Type.
Variable tltb : T -> T -> bool.

Hypothesis tltb_irrefl : forall a, tltb a a = false.
Hypothesis tltb_trans : forall a b c, tltb a b = true -> tltb b c = true -> tltb a c = true.
Hypothesis tltb_total : forall a b, tltb a b = false -> tltb b a = false -> a = b.

(** [p] is the first position of [l] that holds a minimum of [l]. *)
Lemma argmin_from_first (d : T) (xs : list T) :
  forall (pre : list T) (i : nat) (best : T) (bi : nat),
    S i = length pre -> bi < length pre -> nth bi pre d = best ->
    (forall q, q < length pre -> tltb (nth q pre d) best = false) ->
    (forall q, q < bi -> tltb best (nth q pre d) = true) ->
    first_min tltb d (pre ++ xs) (argmin_from tltb xs i best bi).
Proof.
  induction xs as [|x xs IH]; intros pre i best bi Hi Hbi Hnth Hmin Hfirst.
  - simpl. rewrite app_nil_r. unfold first_min. rewrite Hnth. auto.
  - simpl argmin_from.
    replace (pre ++ x :: xs) with ((pre ++ [x]) ++ xs)
      by (rewrite <- app_assoc; reflexivity).
    assert (Hlen : length (pre ++ [x]) = S (length pre))
      by (rewrite length_app; simpl; lia).
    destruct (tltb x best) eqn:Hlt.
    + apply IH.
      * lia.
      * lia.
      * rewrite Hi. rewrite app_nth2 by lia. rewrite Nat.sub_diag. reflexivity.
      * intros q Hq. destruct (Nat.eq_dec q (length pre)) as [->|Hne].
        -- rewrite app_nth2 by lia. rewrite Nat.sub_diag. apply tltb_irrefl.
        -- rewrite app_nth1 by lia.
           destruct (tltb (nth q pre d) x) eqn:E; [|reflexivity].
           rewrite <- (Hmin q) by lia. symmetry.
           apply tltb_trans with x; assumption.
      * intros q Hq. rewrite app_nth1 by lia.
        destruct (tltb x (nth q pre d)) eqn:E; [reflexivity|].
        assert (Hq' : tltb (nth q pre d) best = false) by (apply Hmin; lia).
        destruct (tltb (nth q pre d) x) eqn:E2.
        -- rewrite (tltb_trans _ _ _ E2 Hlt) in Hq'. discriminate.
        -- assert (x = nth q pre d) by (apply tltb_total; assumption).
           congruence.
    + apply IH.
      * lia.
      * lia.
      * rewrite app_nth1 by lia. exact Hnth.
      * intros q Hq. destruct (Nat.eq_dec q (length pre)) as [->|Hne].
        -- rewrite app_nth2 by lia. rewrite Nat.sub_diag. exact Hlt.
        -- rewrite app_nth1 by lia. apply Hmin. lia.
      * intros q Hq. rewrite app_nth1 by lia. apply Hfirst. exact Hq.
Qed.

Lemma np_argmin_first (d : T) (row : list T) (p : nat) :
  np_argmin tltb row = Returned p -> first_min tltb d row p.
Proof.
  destruct row as [|x xs]; simpl; intros H; [discriminate|].
  injection H as <-.
  apply (argmin_from_first d xs [x] 0 x 0); simpl; auto.
  - intros q Hq. assert (q = 0) by lia. subst. apply tltb_irrefl.
  - intros q Hq. lia.
Qed.

End Argmin_facts.

(** ** Real costs *)

Lemma Rltb_true (a b : R) : (a < b)%R -> Rltb a b = true.
Proof.
  intros H. unfold Rltb. destruct (Rlt_dec a b); [reflexivity | contradiction].
Qed.

Lemma Rltb_false (a b : R) : (b <= a)%R -> Rltb a b = false.
Proof.
  intros H. unfold Rltb. destruct (Rlt_dec a b); [lra | reflexivity].
Qed.

Lemma Rltb_lt (a b : R) : Rltb a b = true <-> (a < b)%R.
Proof.
  unfold Rltb. destruct (Rlt_dec a b); split; intros; try assumption;
    try reflexivity; try discriminate; contradiction.
Qed.

Lemma Rltb_ge (a b : R) : Rltb a b = false <-> (b <= a)%R.
Proof.
  unfold Rltb. destruct (Rlt_dec a b); split; intros; try lra;
    try reflexivity; discriminate.
Qed.

Lemma Rltb_irrefl (a : R) : Rltb a a = false.
Proof. apply Rltb_false. lra. Qed.

Lemma Rltb_trans (a b c : R) : Rltb a b = true -> Rltb b c = true -> Rltb a c = true.
Proof. rewrite !Rltb_lt. lra. Qed.

Lemma Rltb_total (a b : R) : Rltb a b = false -> Rltb b a = false -> a = b.
Proof. rewrite !Rltb_ge. lra. Qed.

(** ** The distance matrix *)

Lemma sum_squares_nonneg (v : list R) :
  (0 <= fold_right (fun x acc => x * x + acc) 0 v)%R.
Proof.
  induction v as [|x v IH]; simpl; [lra|].
  pose proof (Rle_0_sqr x) as H. unfold Rsqr in H. lra.
Qed.

Lemma norm_nonneg (v : list R) : (0 <= norm v)%R.
Proof. unfold norm. apply sqrt_pos. Qed.

Lemma sum_squares_vsub_sym (a b : list R) :
  fold_right (fun x acc => x * x + acc)%R 0%R (vsub a b) =
  fold_right (fun x acc => x * x + acc)%R 0%R (vsub b a).
Proof.
  revert b. induction a as [|x a IH]; intros [|y b]; simpl; try reflexivity.
  rewrite (IH b). ring.
Qed.

Lemma norm_vsub_sym (a b : list R) : norm (vsub a b) = norm (vsub b a).
Proof. unfold norm. rewrite sum_squares_vsub_sym. reflexivity. Qed.

Lemma norm_vsub_diag (a : list R) : norm (vsub a a) = 0%R.
Proof.
  unfold norm.
  replace (fold_right (fun x acc => x * x + acc)%R 0%R (vsub a a)) with 0%R;
    [apply sqrt_0|].
  induction a as [|x a IH]; simpl; [reflexivity|]. rewrite <- IH. ring.
Qed.

Lemma distance_matrix_square (X : list (list R)) :
  square (distance_matrix X) (length X).
Proof.
  unfold square, distance_matrix. split; [apply length_map|].
  apply Forall_forall. intros row Hrow. apply in_map_iff in Hrow.
  destruct Hrow as (xi & <- & _). apply length_map.
Qed.

Lemma entry_distance_matrix (X : list (list R)) (i j : nat) :
  i < length X -> j < length X ->
  entry (distance_matrix X) i j = norm (vsub (nth j X []) (nth i X [])).
Proof.
  intros Hi Hj. unfold entry, distance_matrix.
  rewrite (nth_indep _ [] (map (fun xj => norm (vsub xj [])) X))
    by (rewrite length_map; exact Hi).
  rewrite (map_nth (fun xi => map (fun xj => norm (vsub xj xi)) X) X [] i).
  rewrite (nth_indep _ 0%R (norm (vsub [] (nth i X []))))
    by (rewrite length_map; exact Hj).
  rewrite (map_nth (fun xj => norm (vsub xj (nth i X []))) X [] j).
  reflexivity.
Qed.

Lemma wrap_0 (sg : bool) (bits : nat) : wrap sg bits 0 = 0%Z.
Proof.
  unfold wrap. cbv zeta.
  assert (Hm : (0 < 2 ^ Z.of_nat bits)%Z) by (apply Z.pow_pos_nonneg; lia).
  destruct sg.
  - rewrite Z.add_0_l. rewrite Z.mod_small; [lia|].
    split; [apply Z.div_pos; lia | apply Z.div_lt; lia].
  - apply Z.mod_0_l. lia.
Qed.

Lemma norm_vsub_int_diag (sg : bool) (bits : nat) (a : list Z) :
  norm (vsub_int sg bits a a) = 0%R.
Proof.
  unfold norm.
  replace (fold_right (fun x acc => x * x + acc)%R 0%R (vsub_int sg bits a a)) with 0%R;
    [apply sqrt_0|].
  induction a as [|x a IH]; simpl; [reflexivity|].
  rewrite <- IH, Z.sub_diag, wrap_0. simpl. ring.
Qed.

Lemma distance_matrix_int_square (sg : bool) (bits : nat) (X : list (list Z)) :
  square (distance_matrix_int sg bits X) (length X).
Proof.
  unfold square, distance_matrix_int. split; [apply length_map|].
  apply Forall_forall. intros row Hrow. apply in_map_iff in Hrow.
  destruct Hrow as (xi & <- & _). apply length_map.
Qed.

Lemma entry_distance_matrix_int (sg : bool) (bits : nat) (X : list (list Z)) (i j : nat) :
  i < length X -> j < length X ->
  entry (distance_matrix_int sg bits X) i j =
    norm (vsub_int sg bits (nth j X []) (nth i X [])).
Proof.
  intros Hi Hj. unfold entry, distance_matrix_int.
  rewrite (nth_indep _ [] (map (fun xj => norm (vsub_int sg bits xj [])) X))
    by (rewrite length_map; exact Hi).
  rewrite (map_nth (fun xi => map (fun xj => norm (vsub_int sg bits xj xi)) X) X [] i).
  rewrite (nth_indep _ 0%R (norm (vsub_int sg bits [] (nth i X []))))
    by (rewrite length_map; exact Hj).
  rewrite (map_nth (fun xj => norm (vsub_int sg bits xj (nth i X []))) X [] j).
  reflexivity.
Qed.

Lemma distance_matrix_nonneg (X : list (list R)) :
  Forall (Forall (fun x => 0 <= x)%R) (distance_matrix X).
Proof.
  unfold distance_matrix. apply Forall_forall. intros row Hrow.
  apply in_map_iff in Hrow. destruct Hrow as (xi & <- & _).
  apply Forall_forall. intros x Hx. apply in_map_iff in Hx.
  destruct Hx as (xj & <- & _). apply norm_nonneg.
Qed.

Lemma distance_matrix_int_nonneg (sg : bool) (bits : nat) (X : list (list Z)) :
  Forall (Forall (fun x => 0 <= x)%R) (distance_matrix_int sg bits X).
Proof.
  unfold distance_matrix_int. apply Forall_forall. intros row Hrow.
  apply in_map_iff in Hrow. destruct Hrow as (xi & <- & _).
  apply Forall_forall. intros x Hx. apply in_map_iff in Hx.
  destruct Hx as (xj & <- & _). apply norm_nonneg.
Qed.

(** ** The entry point on valid input *)

Lemma valid_input_inv (X k : pyobj) :
  valid_input X k = true ->
  exists a z,
    X = NdArray a /\ k = PyInt z /\ ndim a = 2 /\ shape0 a = n_rows X /\
    (0 < z <= Z.of_nat (n_rows X))%Z /\ np_any_isnan a = Returned false.
Proof.
  unfold valid_input, meets_preconditions, positive_integer. intros H.
  apply andb_true_iff in H. destruct H as [H Hb].
  apply andb_true_iff in H. destruct H as [H Hnan].
  apply andb_true_iff in H. destruct H as [H Hle].
  apply andb_true_iff in H. destruct H as [Hm H].
  apply andb_true_iff in H. destruct H as [Hint Hpos].
  apply negb_true_iff in Hnan. apply Z.ltb_lt in Hpos. apply Z.leb_le in Hle.
  destruct k as [|b|z| | | |]; try discriminate. simpl in Hpos, Hle.
  destruct X as [| | | | | |a]; try discriminate.
  destruct a as [| |ncols rows|sg bits ncols rows| |]; try discriminate.
  - exists (Array2 ncols rows), z. simpl in *. rewrite Hnan. repeat split; auto.
  - exists (Array2Int sg bits ncols rows), z. simpl in *. repeat split; auto.
Qed.

Lemma rbind_lift_returned {A B : Type} (a : A) (f : A -> run B) :
  rbind (lift (Returned a)) f = f a.
Proof. unfold rbind, lift. destruct (f a). reflexivity. Qed.

Lemma cluster_PAM_valid (fuel : nat) (choice : list nat) (X k : pyobj) :
  valid_input X k = true ->
  cluster_PAM fuel choice X k =
  try_except
    (_ <~ enter BuildDistanceMatrix ;;
     _ <~ enter SearchMedoids ;;
     st <~ lift (optimize 0%R Rplus Rltb (D_of X) (n_rows X) fuel choice) ;;
     _ <~ enter AssignClusters ;;
     lift (finalize 0%R Rplus Rltb (D_of X) (fst st))).
Proof.
  intros H.
  destruct (valid_input_inv X k H) as (a & z & -> & -> & Hdim & Hn & [Hpos Hle] & Hnan).
  unfold cluster_PAM. rewrite Hdim, Hnan, Hn. cbn [Nat.eqb negb isinstance_int int_value orb].
  replace (z <=? 0)%Z with false by (symmetry; apply Z.leb_gt; lia).
  replace (z >? Z.of_nat (n_rows (NdArray a)))%Z with false
    by (symmetry; rewrite Z.gtb_ltb; apply Z.ltb_ge; lia).
  cbn [np_random_choice]. rewrite rbind_lift_returned. cbn [rbind enter app].
  rewrite rbind_lift_returned. reflexivity.
Qed.

Lemma cluster_PAM_returns (fuel : nat) (choice : list nat) (X k : pyobj)
      (st : list nat * R) (r : list nat * list nat * R) :
  valid_input X k = true ->
  optimize 0%R Rplus Rltb (D_of X) (n_rows X) fuel choice = Returned st ->
  finalize 0%R Rplus Rltb (D_of X) (fst st) = Returned r ->
  cluster_PAM fuel choice X k =
  ([BuildDistanceMatrix; SearchMedoids; AssignClusters], Returned r).
Proof.
  intros H Ho Hf. rewrite (cluster_PAM_valid fuel choice X k H).
  unfold lift, enter. cbn [rbind]. rewrite Ho. cbn [rbind]. rewrite Hf. reflexivity.
Qed.

Lemma cluster_PAM_returned_inv (fuel : nat) (choice : list nat) (X k : pyobj)
      (r : list nat * list nat * R) :
  valid_input X k = true ->
  snd (cluster_PAM fuel choice X k) = Returned r ->
  exists st,
    optimize 0%R Rplus Rltb (D_of X) (n_rows X) fuel choice = Returned st /\
    finalize 0%R Rplus Rltb (D_of X) (fst st) = Returned r.
Proof.
  intros H. rewrite (cluster_PAM_valid fuel choice X k H).
  unfold lift, enter. cbn [rbind].
  destruct (optimize 0%R Rplus Rltb (D_of X) (n_rows X) fuel choice) as [st| |];
    cbn [rbind try_except snd]; try discriminate.
  destruct (finalize 0%R Rplus Rltb (D_of X) (fst st)) as [r'| |] eqn:Hf;
    cbn [rbind try_except snd app]; try discriminate.
  intros Hr. exists st. split; [reflexivity | congruence].
Qed.

Lemma D_of_square (X : pyobj) : square (D_of X) (n_rows X).
Proof.
  destruct X as [| | | | | |a]; try (split; [reflexivity | constructor]).
  destruct a as [| |ncols rows|sg bits ncols rows| |];
    try (split; [reflexivity | constructor]); simpl.
  - replace (length rows) with (length (reals rows)) by (unfold reals; apply length_map).
    apply distance_matrix_square.
  - apply distance_matrix_int_square.
Qed.

(** Whatever the dtype, the entries of the matrix are not negative and
    the diagonal is zero. *)
Lemma D_of_nonneg (X : pyobj) : Forall (Forall (fun x => 0 <= x)%R) (D_of X).
Proof.
  destruct X as [| | | | | |a]; try constructor.
  destruct a as [| |ncols rows|sg bits ncols rows| |]; try constructor.
  - apply distance_matrix_nonneg.
  - apply distance_matrix_int_nonneg.
Qed.

Lemma D_of_diag (X : pyobj) (i : nat) : i < n_rows X -> entry (D_of X) i i = 0%R.
Proof.
  destruct X as [| | | | | |a]; try (simpl; lia).
  destruct a as [| |ncols rows|sg bits ncols rows| |]; try (simpl; lia);
    cbn [n_rows D_of build_cost_matrix]; intros Hi.
  - rewrite entry_distance_matrix by (unfold reals; rewrite length_map; exact Hi).
    apply norm_vsub_diag.
  - rewrite entry_distance_matrix_int by exact Hi. apply norm_vsub_int_diag.
Qed.

Lemma k_of_pos (X k : pyobj) : valid_input X k = true -> 0 < k_of k <= n_rows X.
Proof.
  intros H. destruct (valid_input_inv X k H) as (a & z & -> & -> & _ & _ & Hk & _).
  unfold k_of. cbn [int_value]. lia.
Qed.

Lemma is_choice_consistent (X k : pyobj) (choice : list nat) :
  valid_input X k = true -> is_choice (n_rows X) (k_of k) choice ->
  consistent 0%R Rplus Rltb (D_of X) (n_rows X) (k_of k)
    (choice, cost_of 0%R Rplus Rltb (D_of X) choice).
Proof.
  intros Hv Hc. split; simpl; [exact Hc|].
  apply valid_cost with (n := n_rows X) (k := k_of k).
  - apply D_of_square.
  - apply (k_of_pos X k Hv).
  - exact Hc.
Qed.

(** The optimiser of a valid call runs to the end; every state it goes
    through is consistent and no state costs more than the one before. *)
Lemma optimizer_spec (X k : pyobj) (choice : list nat) :
  valid_input X k = true -> is_choice (n_rows X) (k_of k) choice ->
  exists fuel b tr,
    cost_on X choice = Returned b /\
    optimizer_history fuel choice X = Returned ((choice, b) :: tr) /\
    optimize 0%R Rplus Rltb (D_of X) (n_rows X) fuel choice
      = Returned (last tr (choice, b)) /\
    Forall (consistent 0%R Rplus Rltb (D_of X) (n_rows X) (k_of k)) ((choice, b) :: tr) /\
    non_increasing Rltb (choice, b) tr.
Proof.
  intros Hv Hc.
  pose proof (is_choice_consistent X k choice Hv Hc) as Hok.
  set (b := cost_of 0%R Rplus Rltb (D_of X) choice) in *.
  pose proof (D_of_square X) as Hsq. pose proof (k_of_pos X k Hv) as [Hk _].
  set (fuel := S (below 0%R Rplus Rltb (D_of X) (n_rows X) (k_of k) b)).
  destruct (pam_trace_terminates R 0%R Rplus Rltb Rltb_irrefl Rltb_trans Rltb_total
              (D_of X) (n_rows X) (k_of k) Hsq Hk fuel (choice, b) Hok)
    as (tr & Htr & Hall & Hmono).
  { unfold fuel. simpl. lia. }
  exists fuel, b, tr. destruct Hok as [Hval Hcost]. simpl in Hcost.
  split; [exact Hcost|]. split; [|split; [|split]].
  - unfold optimizer_history, history. rewrite Hcost. cbn [bind]. rewrite Htr. reflexivity.
  - unfold optimize. rewrite Hcost. cbn [bind]. rewrite pam_trace_last, Htr. reflexivity.
  - constructor; [split; assumption | exact Hall].
  - exact Hmono.
Qed.

Lemma optimizer_history_unique (X : pyobj) (choice : list nat) (fuel fuel' : nat)
      (h h' : list (list nat * R)) :
  optimizer_history fuel choice X = Returned h ->
  optimizer_history fuel' choice X = Returned h' -> h = h'.
Proof.
  unfold optimizer_history, history. intros H H'.
  destruct (total_cost 0%R Rplus Rltb (D_of X) choice) as [b| |]; try discriminate.
  cbn [bind] in *.
  destruct (pam_trace 0%R Rplus Rltb (D_of X) (n_rows X) fuel (choice, b)) as [tr| |] eqn:E;
    try discriminate.
  destruct (pam_trace 0%R Rplus Rltb (D_of X) (n_rows X) fuel' (choice, b)) as [tr'| |] eqn:E';
    try discriminate.
  cbn [bind] in *.
  assert (tr = tr'); [|congruence].
  pose proof (pam_trace_fuel R 0%R Rplus Rltb (D_of X) (n_rows X)
                fuel (Nat.max fuel fuel') _ _ E (Nat.le_max_l _ _)) as H1.
  pose proof (pam_trace_fuel R 0%R Rplus Rltb (D_of X) (n_rows X)
                fuel' (Nat.max fuel fuel') _ _ E' (Nat.le_max_r _ _)) as H2.
  congruence.
Qed.

Lemma optimize_unique (X : pyobj) (choice : list nat) (fuel fuel' : nat)
      (st st' : list nat * R) :
  optimize 0%R Rplus Rltb (D_of X) (n_rows X) fuel choice = Returned st ->
  optimize 0%R Rplus Rltb (D_of X) (n_rows X) fuel' choice = Returned st' -> st = st'.
Proof.
  unfold optimize. intros H H'.
  destruct (total_cost 0%R Rplus Rltb (D_of X) choice) as [b| |] eqn:Hb; try discriminate.
  cbn [bind] in *. rewrite pam_trace_last in H, H'.
  destruct (pam_trace 0%R Rplus Rltb (D_of X) (n_rows X) fuel (choice, b)) as [tr| |] eqn:E;
    try discriminate.
  destruct (pam_trace 0%R Rplus Rltb (D_of X) (n_rows X) fuel' (choice, b)) as [tr'| |] eqn:E';
    try discriminate.
  cbn [bind] in *.
  assert (Hh : (choice, b) :: tr = (choice, b) :: tr').
  { apply (optimizer_history_unique X choice fuel fuel');
      unfold optimizer_history, history; rewrite Hb; cbn [bind];
      [rewrite E | rewrite E']; reflexivity. }
  injection Hh as ->. congruence.
Qed.

Lemma returns_unique (X k : pyobj) (choice : list nat) (r r' : list nat * list nat * R) :
  valid_input X k = true ->
  returns X k choice r -> returns X k choice r' -> r = r'.
Proof.
  intros Hv [fuel H] [fuel' H'].
  destruct (cluster_PAM_returned_inv _ _ _ _ _ Hv H) as (st & Ho & Hf).
  destruct (cluster_PAM_returned_inv _ _ _ _ _ Hv H') as (st' & Ho' & Hf').
  rewrite (optimize_unique _ _ _ _ _ _ Ho Ho') in Hf. congruence.
Qed.

(** ** Evaluating a run on concrete points *)

Ltac dist_entry :=
  match goal with
  | |- sqrt ?e = 0%R => replace e with 0%R by ring; apply sqrt_0
  | |- sqrt ?e = sqrt ?f => f_equal; ring
  | |- sqrt ?e = ?c => replace e with (c * c)%R by ring; apply sqrt_square; lra
  end.

Ltac distances :=
  unfold D_of, build_cost_matrix, distance_matrix, reals, norm;
  cbn [map real_of vsub fold_right];
  repeat (f_equal; try dist_entry).

Ltac decide_Rltb :=
  match goal with
  | |- context [Rltb ?a ?b] =>
      first [ rewrite (Rltb_true a b) by lra | rewrite (Rltb_false a b) by lra ]
  end.

Ltac run_PAM :=
  repeat (cbn [optimize pam_loop pass swap_medoid scan total_cost sub_matrix take_cols
                mapM np_min np_sum np_argmin argmin_from finalize fold_left bind
                py_in py_remove nth_error seq negb orb andb Nat.eqb app fst snd
                set_eqb subset_b forallb rbind lift enter try_except];
          unfold tmin; repeat decide_Rltb).

Lemma sqrt_between (lo hi x : R) :
  (0 <= lo)%R -> (0 <= hi)%R -> (lo * lo < x)%R -> (x < hi * hi)%R ->
  (lo < sqrt x < hi)%R.
Proof.
  intros Hlo Hhi H1 H2. split.
  - rewrite <- (sqrt_square lo Hlo). apply sqrt_lt_1_alt. split; [|exact H1].
    apply Rmult_le_pos; assumption.
  - rewrite <- (sqrt_square hi Hhi). apply sqrt_lt_1_alt. split; [|exact H2].
    apply Rle_trans with (lo * lo)%R; [apply Rmult_le_pos; assumption | lra].
Qed.

Lemma D_X_pair : D_of X_pair = [[0; 1]; [1; 0]]%R.
Proof. unfold X_pair. distances. Qed.

Lemma D_X_tie : D_of X_tie = [[0; 1; 1]; [1; 0; 2]; [1; 2; 0]]%R.
Proof. unfold X_tie. distances. Qed.

Lemma D_X_scenario :
  D_of X_scenario = [[0; 1; sqrt 200; sqrt 221]; [1; 0; sqrt 181; sqrt 200];
                     [sqrt 200; sqrt 181; 0; 1]; [sqrt 221; sqrt 200; 1; 0]]%R.
Proof. unfold X_scenario. distances. Qed.

Lemma run_X_pair :
  cluster_PAM 1 [1] X_pair (PyInt 1) =
  ([BuildDistanceMatrix; SearchMedoids; AssignClusters], Returned ([1], [0; 0], 1%R)).
Proof.
  rewrite cluster_PAM_valid by reflexivity. rewrite D_X_pair.
  change (n_rows X_pair) with 2. run_PAM.
  repeat f_equal. lra.
Qed.

Lemma run_X_tie :
  cluster_PAM 1 [2; 1] X_tie (PyInt 2) =
  ([BuildDistanceMatrix; SearchMedoids; AssignClusters], Returned ([2; 1], [0; 1; 0], 1%R)).
Proof.
  rewrite cluster_PAM_valid by reflexivity. rewrite D_X_tie.
  change (n_rows X_tie) with 3. run_PAM.
  repeat f_equal. lra.
Qed.

(** One medoid in each pair, and every point labelled with the position of
    the medoid of its own pair. *)
Lemma run_X_scenario (a b : nat) :
  a < 4 -> b < 4 -> a <> b ->
  exists M C,
    cluster_PAM 2 [a; b] X_scenario (PyInt 2) =
    ([BuildDistanceMatrix; SearchMedoids; AssignClusters], Returned (M, C, 2%R)) /\
    length (filter (fun m => m <? 2) M) = 1 /\
    length (filter (fun m => 2 <=? m) M) = 1 /\
    length M = 2 /\
    forall i, i < 4 ->
      exists m, nth_error M (nth i C 0) = Some m /\ same_pair i m = true.
Proof.
  intros Ha Hb Hab.
  assert (H181 : (13.4 < sqrt 181 < 13.5)%R) by (apply sqrt_between; lra).
  assert (H200 : (14.1 < sqrt 200 < 14.2)%R) by (apply sqrt_between; lra).
  assert (H221 : (14.8 < sqrt 221 < 14.9)%R) by (apply sqrt_between; lra).
  rewrite cluster_PAM_valid by reflexivity. rewrite D_X_scenario.
  change (n_rows X_scenario) with 4.
  destruct a as [|[|[|[|a]]]]; try lia;
    destruct b as [|[|[|[|b]]]]; try lia;
    run_PAM;
    (eexists; eexists; split;
     [ apply f_equal; apply f_equal; apply f_equal2; [reflexivity | lra]
     | split; [reflexivity | split; [reflexivity | split; [reflexivity |]]];
       intros i Hi; destruct i as [|[|[|[|i]]]]; try lia;
       eexists; split; reflexivity ]).
Qed.

Lemma last_in_cons {A : Type} (l : list A) (d : A) : In (last l d) (d :: l).
Proof.
  revert d. induction l as [|a l IH]; intros d; [left; reflexivity|].
  rewrite last_cons_default. right. apply IH.
Qed.

(** ** The whole call on valid input *)

Lemma cluster_PAM_spec (X k : pyobj) (choice : list nat) :
  valid_input X k = true -> is_choice (n_rows X) (k_of k) choice ->
  exists fuel b tr C,
    cost_on X choice = Returned b /\
    optimizer_history fuel choice X = Returned ((choice, b) :: tr) /\
    Forall (consistent 0%R Rplus Rltb (D_of X) (n_rows X) (k_of k)) ((choice, b) :: tr) /\
    non_increasing Rltb (choice, b) tr /\
    length C = n_rows X /\ Forall (fun c => c < k_of k) C /\
    cluster_PAM fuel choice X k =
    ([BuildDistanceMatrix; SearchMedoids; AssignClusters],
     Returned (fst (last tr (choice, b)), C, snd (last tr (choice, b)))).
Proof.
  intros Hv Hc.
  destruct (optimizer_spec X k choice Hv Hc) as (fuel & b & tr & Hb & Hh & Ho & Hall & Hmono).
  pose proof (D_of_square X) as Hsq. pose proof (k_of_pos X k Hv) as [Hk _].
  assert (Hok : consistent 0%R Rplus Rltb (D_of X) (n_rows X) (k_of k) (last tr (choice, b))).
  { inversion Hall; subst. apply ok_last; assumption. }
  destruct (finalize_spec R 0%R Rplus Rltb (D_of X) (n_rows X) (k_of k) Hsq Hk
              (fst (last tr (choice, b))) (proj1 Hok)) as (C & Hf & Hlen & Hpos).
  rewrite (consistent_cost_of R 0%R Rplus Rltb (D_of X) (n_rows X) (k_of k) Hsq Hk _ Hok) in Hf.
  exists fuel, b, tr, C. repeat (split; [assumption|]).
  apply cluster_PAM_returns with (st := last tr (choice, b)); assumption.
Qed.

Lemma non_increasing_adjacent (st : list nat * R) (tr : list (list nat * R)) (i : nat)
      (s s' : list nat * R) :
  non_increasing Rltb st tr ->
  nth_error (st :: tr) i = Some s -> nth_error (st :: tr) (S i) = Some s' ->
  (snd s' <= snd s)%R.
Proof.
  revert st i. induction tr as [|t tr IH]; intros st i Hmono Hs Hs'.
  - destruct i; simpl in Hs'; [discriminate | destruct i; discriminate].
  - destruct Hmono as [Hle Hmono]. destruct i as [|i].
    + simpl in Hs, Hs'. injection Hs as <-. injection Hs' as <-.
      apply Rltb_ge in Hle. exact Hle.
    + apply (IH t i Hmono); assumption.
Qed.

Lemma mapM_nth_error {A B : Type} (f : A -> outcome B) (l : list A) (bs : list B) :
  mapM f l = Returned bs ->
  length bs = length l /\
  forall i a, nth_error l i = Some a ->
    exists b, nth_error bs i = Some b /\ f a = Returned b.
Proof.
  revert bs. induction l as [|x l IH]; intros bs H; simpl in H.
  - injection H as <-. split; [reflexivity|]. intros [|i] a Ha; discriminate.
  - apply bind_Returned in H. destruct H as (b & Hb & H).
    apply bind_Returned in H. destruct H as (bs' & Hbs & H).
    injection H as <-. destruct (IH bs' Hbs) as [Hlen Hnth].
    split; [simpl; congruence|].
    intros [|i] a Ha; simpl in Ha.
    + injection Ha as <-. exists b. split; [reflexivity | exact Hb].
    + apply Hnth. exact Ha.
Qed.

Lemma take_cols_Returned (m : list nat) (row l : list R) :
  take_cols m row = Returned l -> l = map (fun j => nth j row 0%R) m.
Proof.
  revert l. induction m as [|j m IH]; intros l H; unfold take_cols in H; simpl in H.
  - injection H as <-. reflexivity.
  - apply bind_Returned in H. destruct H as (x & Hx & H).
    apply bind_Returned in H. destruct H as (l' & Hl' & H).
    injection H as <-. simpl. f_equal.
    + destruct (nth_error row j) as [y|] eqn:E; [|discriminate].
      injection Hx as <-. symmetry. apply nth_error_nth. exact E.
    + apply IH. exact Hl'.
Qed.

(** The label of point [i] is the first minimum of row [i] of
    [cost_matrix[:, medoids]]. *)
Lemma finalize_first_min (D : list (list R)) (m M C : list nat) (c : R) (i : nat) :
  finalize 0%R Rplus Rltb D m = Returned (M, C, c) -> i < length D ->
  M = m /\
  first_min Rltb 0%R (map (fun j => entry D i j) M) (nth i C 0).
Proof.
  intros H Hi. unfold finalize in H.
  apply bind_Returned in H. destruct H as (fm & Hfm & H).
  apply bind_Returned in H. destruct H as (mins & _ & H).
  apply bind_Returned in H. destruct H as (cl & Hcl & H).
  injection H as <- <- _. split; [reflexivity|].
  destruct (nth_error D i) as [row|] eqn:Hrow; [|apply nth_error_None in Hrow; lia].
  destruct (mapM_nth_error _ _ _ Hfm) as [_ Hnth].
  destruct (Hnth i row Hrow) as (l & Hl & Htake).
  destruct (mapM_nth_error _ _ _ Hcl) as [_ Hnth'].
  destruct (Hnth' i l Hl) as (p & Hp & Harg).
  rewrite (nth_error_nth _ _ 0 Hp).
  apply take_cols_Returned in Htake. subst l.
  unfold entry. rewrite (nth_error_nth _ _ [] Hrow).
  apply np_argmin_first; [apply Rltb_irrefl | apply Rltb_trans | apply Rltb_total | exact Harg].
Qed.

Lemma optimize_fuel (D : list (list R)) (n fuel fuel' : nat) (choice : list nat)
      (st : list nat * R) :
  optimize 0%R Rplus Rltb D n fuel choice = Returned st -> fuel <= fuel' ->
  optimize 0%R Rplus Rltb D n fuel' choice = Returned st.
Proof.
  unfold optimize. intros H Hle.
  destruct (total_cost 0%R Rplus Rltb D choice) as [b| |]; try discriminate.
  cbn [bind] in *. rewrite pam_trace_last in H |- *.
  destruct (pam_trace 0%R Rplus Rltb D n fuel (choice, b)) as [tr| |] eqn:E;
    try discriminate.
  rewrite (pam_trace_fuel R 0%R Rplus Rltb D n fuel fuel' _ _ E Hle). exact H.
Qed.

Ltac choice_ok :=
  unfold is_choice; split; [reflexivity | split];
  [ repeat (constructor; [simpl; intuition lia|]); constructor
  | repeat (constructor; [vm_compute; lia|]); constructor ].

(** * The claims *)

(** C1, as stated, fails: on the two points 0 and 1 with [k = 1] and the
    draw [[1]], the call returns medoids [[1]] and labels [[0; 0]]; the
    label 0 is not a member of the medoid list. *)
Lemma C1_counterexample :
  valid_input X_pair (PyInt 1) = true /\
  is_choice (n_rows X_pair) (k_of (PyInt 1)) [1] /\
  returns X_pair (PyInt 1) [1] ([1], [0; 0], 1%R) /\
  ~ Forall (fun c => In c [1]) [0; 0].
Proof.
  split; [reflexivity|]. split; [choice_ok|]. split.
  - exists 1. rewrite run_X_pair. reflexivity.
  - intros H. inversion H as [|? ? H0 _]; subst. simpl in H0. intuition lia.
Qed.

(** C1 (amended): for every valid input and every draw the call returns;
    the assignment sequence has length [n], the medoid list has length [k],
    and every label [C[i]] is a position below [k] in the returned medoid
    list, so that [M[C[i]]] is a member of [M]. *)
Theorem C1_labels_are_positions (X k : pyobj) (choice : list nat) :
  valid_input X k = true -> is_choice (n_rows X) (k_of k) choice ->
  (exists r, returns X k choice r) /\
  forall M C cost, returns X k choice (M, C, cost) ->
    length C = n_rows X /\ length M = k_of k /\
    Forall (fun c => c < k_of k /\ exists m, nth_error M c = Some m /\ In m M) C.
Proof.
  intros Hv Hc.
  destruct (cluster_PAM_spec X k choice Hv Hc)
    as (fuel & b & tr & C0 & Hb & Hh & Hall & Hmono & Hlen & Hpos & Hrun).
  assert (Hret : returns X k choice
                   (fst (last tr (choice, b)), C0, snd (last tr (choice, b)))).
  { exists fuel. rewrite Hrun. reflexivity. }
  split; [eexists; exact Hret|].
  intros M C cost Hr.
  pose proof (returns_unique X k choice _ _ Hv Hr Hret) as E. injection E as -> -> ->.
  assert (Hok : consistent 0%R Rplus Rltb (D_of X) (n_rows X) (k_of k) (last tr (choice, b))).
  { inversion Hall; subst. apply ok_last; assumption. }
  destruct Hok as [(HlenM & _ & _) _].
  split; [exact Hlen|]. split; [exact HlenM|].
  apply Forall_forall. intros c Hin. rewrite Forall_forall in Hpos.
  specialize (Hpos c Hin). split; [exact Hpos|].
  destruct (nth_error (fst (last tr (choice, b))) c) as [m|] eqn:E.
  - exists m. split; [reflexivity|]. apply nth_error_In with c. exact E.
  - apply nth_error_None in E. lia.
Qed.

Lemma C1_witness :
  valid_input X_pair (PyInt 1) = true /\
  is_choice (n_rows X_pair) (k_of (PyInt 1)) [0] /\
  ((exists r, returns X_pair (PyInt 1) [0] r) /\
   forall M C cost, returns X_pair (PyInt 1) [0] (M, C, cost) ->
     length C = n_rows X_pair /\ length M = k_of (PyInt 1) /\
     Forall (fun c => c < k_of (PyInt 1) /\ exists m, nth_error M c = Some m /\ In m M) C).
Proof.
  assert (H1 : valid_input X_pair (PyInt 1) = true) by reflexivity.
  assert (H2 : is_choice (n_rows X_pair) (k_of (PyInt 1)) [0]) by choice_ok.
  split; [exact H1|]. split; [exact H2|].
  exact (C1_labels_are_positions X_pair (PyInt 1) [0] H1 H2).
Defined.

(** C2: on the four points (0,0), (0,1), (10,10), (10,11) with [k = 2],
    whatever the draw, the call returns final cost 2 and a medoid list with
    exactly one index of {0,1} and one of {2,3}, and the label of every
    point designates the medoid of its own pair. *)
Theorem C2_scenario (choice : list nat) :
  is_choice 4 2 choice ->
  exists M C,
    returns X_scenario (PyInt 2) choice (M, C, 2%R) /\
    (forall r, returns X_scenario (PyInt 2) choice r -> r = (M, C, 2%R)) /\
    length (filter (fun m => m <? 2) M) = 1 /\
    length (filter (fun m => 2 <=? m) M) = 1 /\
    length M = 2 /\
    forall i, i < 4 ->
      exists m, nth_error M (nth i C 0) = Some m /\ same_pair i m = true.
Proof.
  intros (Hlen & Hnd & Hb).
  destruct choice as [|a [|b [|c l]]]; try discriminate.
  inversion Hb as [|? ? Ha Hb']; subst. inversion Hb' as [|? ? Hb0 _]; subst.
  assert (Hab : a <> b).
  { inversion Hnd as [|? ? Hnin _]; subst. intros ->. apply Hnin. left; reflexivity. }
  destruct (run_X_scenario a b Ha Hb0 Hab) as (M & C & Hrun & H1 & H2 & H3 & H4).
  assert (Hret : returns X_scenario (PyInt 2) [a; b] (M, C, 2%R)).
  { exists 2. rewrite Hrun. reflexivity. }
  exists M, C. split; [exact Hret|]. split; [|repeat split; assumption].
  intros r Hr. apply (returns_unique X_scenario (PyInt 2) [a; b]);
    [reflexivity | exact Hr | exact Hret].
Qed.

Lemma C2_witness :
  is_choice 4 2 [0; 1] /\
  exists M C,
    returns X_scenario (PyInt 2) [0; 1] (M, C, 2%R) /\
    (forall r, returns X_scenario (PyInt 2) [0; 1] r -> r = (M, C, 2%R)) /\
    length (filter (fun m => m <? 2) M) = 1 /\
    length (filter (fun m => 2 <=? m) M) = 1 /\
    length M = 2 /\
    forall i, i < 4 ->
      exists m, nth_error M (nth i C 0) = Some m /\ same_pair i m = true.
Proof.
  assert (H : is_choice 4 2 [0; 1]) by choice_ok.
  split; [exact H|]. exact (C2_scenario [0; 1] H).
Defined.




Lemma no_better_swap_X_pair :
  no_better_swap 0%R Rplus Rltb (D_of X_pair) (n_rows X_pair) [1] 1%R.
Proof.
  intros x c m' tc Hx Hc Hnin Hsw Hcost.
  destruct Hx as [<-|[]]. change (n_rows X_pair) with 2 in Hc.
  assert (c = 0) by (simpl in Hnin; lia). subst c.
  unfold swapped in Hsw.
  assert (m' = [0]).
  { pose proof (Permutation_length Hsw) as Hl. simpl in Hl.
    destruct m' as [|y [|z m']]; try discriminate.
    assert (Hin : In 0 [1; y]) by (apply Permutation_in with [0; 1];
                                     [symmetry; exact Hsw | left; reflexivity]).
    simpl in Hin. destruct Hin as [Hin|[Hin|[]]]; [discriminate | congruence]. }
  subst m'. rewrite D_X_pair in Hcost. revert Hcost. run_PAM.
  intros Hcost. injection Hcost as <-. apply Rltb_false. lra.
Qed.

Lemma optimize_one_pass (X k : pyobj) (choice : list nat) (b : R) :
  valid_input X k = true -> is_choice (n_rows X) (k_of k) choice ->
  cost_on X choice = Returned b ->
  no_better_swap 0%R Rplus Rltb (D_of X) (n_rows X) choice b ->
  exists st,
    optimize 0%R Rplus Rltb (D_of X) (n_rows X) 1 choice = Returned st /\
    Permutation choice (fst st) /\ snd st = b.
Proof.
  intros Hv Hc Hb Hnb. unfold cost_on in Hb.
  pose proof (is_choice_consistent X k choice Hv Hc) as Hok.
  assert (Eb : cost_of 0%R Rplus Rltb (D_of X) choice = b).
  { destruct Hok as [_ Hcost]. simpl in Hcost. congruence. }
  rewrite Eb in Hok.
  destruct (pam_loop_one_pass R 0%R Rplus Rltb Rltb_irrefl Rltb_trans Rltb_total
              (D_of X) (n_rows X) (k_of k) (D_of_square X) (proj1 (k_of_pos X k Hv))
              (choice, b) Hok Hnb) as (st & Hst & Hp & He).
  exists st. unfold optimize. rewrite Hb. split; [exact Hst|]. split; assumption.
Qed.

(** The one-pass case is met on the two points with the draw [[1]]. *)
Example one_pass_X_pair :
  exists st, optimize 0%R Rplus Rltb (D_of X_pair) (n_rows X_pair) 1 [1] = Returned st.
Proof.
  destruct (optimize_one_pass X_pair (PyInt 1) [1] 1%R) as (st & H & _).
  - reflexivity.
  - choice_ok.
  - unfold cost_on. rewrite D_X_pair. run_PAM. f_equal. lra.
  - apply no_better_swap_X_pair.
  - exists st. exact H.
Qed.

(** C4: on every valid input the optimiser loop ends after finitely many
    passes (some number of passes is enough, and any larger bound gives the
    same state), never before the first pass; when no replacement of a
    medoid by a non-medoid costs strictly less than the initial cost, one
    pass is enough. *)
Theorem C4_loop_terminates (X k : pyobj) (choice : list nat) :
  valid_input X k = true -> is_choice (n_rows X) (k_of k) choice ->
  (exists fuel st,
     optimize 0%R Rplus Rltb (D_of X) (n_rows X) fuel choice = Returned st /\
     forall fuel', fuel <= fuel' ->
       optimize 0%R Rplus Rltb (D_of X) (n_rows X) fuel' choice = Returned st) /\
  optimize 0%R Rplus Rltb (D_of X) (n_rows X) 0 choice = OutOfFuel /\
  (forall b, cost_on X choice = Returned b ->
     no_better_swap 0%R Rplus Rltb (D_of X) (n_rows X) choice b ->
     exists st, optimize 0%R Rplus Rltb (D_of X) (n_rows X) 1 choice = Returned st).
Proof.
  intros Hv Hc.
  destruct (optimizer_spec X k choice Hv Hc) as (fuel & b & tr & Hb & _ & Ho & _ & _).
  split; [|split].
  - exists fuel, (last tr (choice, b)). split; [exact Ho|].
    intros fuel' Hle. apply optimize_fuel with fuel; assumption.
  - unfold optimize. unfold cost_on in Hb. rewrite Hb. reflexivity.
  - intros b' Hb' Hnb.
    destruct (optimize_one_pass X k choice b' Hv Hc Hb' Hnb) as (st & Hst & _).
    exists st. exact Hst.
Qed.

Lemma C4_witness :
  valid_input X_pair (PyInt 1) = true /\
  is_choice (n_rows X_pair) (k_of (PyInt 1)) [1] /\
  (exists fuel st,
     optimize 0%R Rplus Rltb (D_of X_pair) (n_rows X_pair) fuel [1] = Returned st /\
     forall fuel', fuel <= fuel' ->
       optimize 0%R Rplus Rltb (D_of X_pair) (n_rows X_pair) fuel' [1] = Returned st) /\
  optimize 0%R Rplus Rltb (D_of X_pair) (n_rows X_pair) 0 [1] = OutOfFuel /\
  (forall b, cost_on X_pair [1] = Returned b ->
     no_better_swap 0%R Rplus Rltb (D_of X_pair) (n_rows X_pair) [1] b ->
     exists st, optimize 0%R Rplus Rltb (D_of X_pair) (n_rows X_pair) 1 [1] = Returned st).
Proof.
  assert (H1 : valid_input X_pair (PyInt 1) = true) by reflexivity.
  assert (H2 : is_choice (n_rows X_pair) (k_of (PyInt 1)) [1]) by choice_ok.
  split; [exact H1|]. split; [exact H2|].
  exact (C4_loop_terminates X_pair (PyInt 1) [1] H1 H2).
Defined.

(** C5: on every valid input the optimiser goes through a definite list of
    states (the initial one, then one after each remove-then-add
    replacement); in each of them the tracked best cost is the cost of the
    medoid list, and from each state to the next the cost does not
    increase. *)
Theorem C5_cost_non_increasing (X k : pyobj) (choice : list nat) :
  valid_input X k = true -> is_choice (n_rows X) (k_of k) choice ->
  exists fuel h,
    optimizer_history fuel choice X = Returned h /\
    (forall fuel' h', optimizer_history fuel' choice X = Returned h' -> h' = h) /\
    (forall M C cost, returns X k choice (M, C, cost) ->
       last h (choice, 0%R) = (M, cost)) /\
    forall i s s',
      nth_error h i = Some s -> nth_error h (S i) = Some s' ->
      cost_on X (fst s) = Returned (snd s) /\
      cost_on X (fst s') = Returned (snd s') /\
      (snd s' <= snd s)%R.
Proof.
  intros Hv Hc.
  destruct (cluster_PAM_spec X k choice Hv Hc)
    as (fuel & b & tr & C0 & Hb & Hh & Hall & Hmono & _ & _ & Hrun).
  exists fuel, ((choice, b) :: tr). split; [exact Hh|]. split; [|split].
  - intros fuel' h' Hh'. apply (optimizer_history_unique X choice fuel' fuel); assumption.
  - intros M C cost Hr.
    assert (Hret : returns X k choice
                     (fst (last tr (choice, b)), C0, snd (last tr (choice, b)))).
    { exists fuel. rewrite Hrun. reflexivity. }
    pose proof (returns_unique X k choice _ _ Hv Hr Hret) as E. injection E as -> -> ->.
    rewrite last_cons_default. destruct (last tr (choice, b)); reflexivity.
  - intros i s s' Hs Hs'. rewrite Forall_forall in Hall.
    split; [|split].
    + apply (Hall s). apply nth_error_In with i. exact Hs.
    + apply (Hall s'). apply nth_error_In with (S i). exact Hs'.
    + apply (non_increasing_adjacent (choice, b) tr i); assumption.
Qed.

Lemma C5_witness :
  valid_input X_pair (PyInt 1) = true /\
  is_choice (n_rows X_pair) (k_of (PyInt 1)) [1] /\
  exists fuel h,
    optimizer_history fuel [1] X_pair = Returned h /\
    (forall fuel' h', optimizer_history fuel' [1] X_pair = Returned h' -> h' = h) /\
    (forall M C cost, returns X_pair (PyInt 1) [1] (M, C, cost) ->
       last h ([1], 0%R) = (M, cost)) /\
    forall i s s',
      nth_error h i = Some s -> nth_error h (S i) = Some s' ->
      cost_on X_pair (fst s) = Returned (snd s) /\
      cost_on X_pair (fst s') = Returned (snd s') /\
      (snd s' <= snd s)%R.
Proof.
  assert (H1 : valid_input X_pair (PyInt 1) = true) by reflexivity.
  assert (H2 : is_choice (n_rows X_pair) (k_of (PyInt 1)) [1]) by choice_ok.
  split; [exact H1|]. split; [exact H2|].
  exact (C5_cost_non_increasing X_pair (PyInt 1) [1] H1 H2).
Defined.

(** C6: on every valid input the medoid list holds exactly [k] pairwise
    distinct row indices below [n] at initialisation, after every swap
    application of the optimiser loop, and in the result the call returns. *)
Theorem C6_medoid_set_valid (X k : pyobj) (choice : list nat) :
  valid_input X k = true -> is_choice (n_rows X) (k_of k) choice ->
  exists fuel h,
    optimizer_history fuel choice X = Returned h /\
    (forall fuel' h', optimizer_history fuel' choice X = Returned h' -> h' = h) /\
    (exists b, nth_error h 0 = Some (choice, b)) /\
    Forall (fun s => valid_medoids (n_rows X) (k_of k) (fst s)) h /\
    forall M C cost, returns X k choice (M, C, cost) ->
      M = fst (last h (choice, 0%R)) /\ valid_medoids (n_rows X) (k_of k) M.
Proof.
  intros Hv Hc.
  destruct (cluster_PAM_spec X k choice Hv Hc)
    as (fuel & b & tr & C0 & Hb & Hh & Hall & Hmono & _ & _ & Hrun).
  assert (Hvalid : Forall (fun s => valid_medoids (n_rows X) (k_of k) (fst s))
                          ((choice, b) :: tr)).
  { apply Forall_impl with (2 := Hall). intros s [Hs _]. exact Hs. }
  exists fuel, ((choice, b) :: tr). split; [exact Hh|]. split; [|split; [|split]].
  - intros fuel' h' Hh'. apply (optimizer_history_unique X choice fuel' fuel); assumption.
  - exists b. reflexivity.
  - exact Hvalid.
  - intros M C cost Hr.
    assert (Hret : returns X k choice
                     (fst (last tr (choice, b)), C0, snd (last tr (choice, b)))).
    { exists fuel. rewrite Hrun. reflexivity. }
    pose proof (returns_unique X k choice _ _ Hv Hr Hret) as E. injection E as -> -> ->.
    rewrite last_cons_default. split; [reflexivity|].
    rewrite Forall_forall in Hvalid. apply Hvalid. apply last_in_cons.
Qed.

Lemma C6_witness :
  valid_input X_pair (PyInt 1) = true /\
  is_choice (n_rows X_pair) (k_of (PyInt 1)) [1] /\
  exists fuel h,
    optimizer_history fuel [1] X_pair = Returned h /\
    (forall fuel' h', optimizer_history fuel' [1] X_pair = Returned h' -> h' = h) /\
    (exists b, nth_error h 0 = Some ([1], b)) /\
    Forall (fun s => valid_medoids (n_rows X_pair) (k_of (PyInt 1)) (fst s)) h /\
    forall M C cost, returns X_pair (PyInt 1) [1] (M, C, cost) ->
      M = fst (last h ([1], 0%R)) /\ valid_medoids (n_rows X_pair) (k_of (PyInt 1)) M.
Proof.
  assert (H1 : valid_input X_pair (PyInt 1) = true) by reflexivity.
  assert (H2 : is_choice (n_rows X_pair) (k_of (PyInt 1)) [1]) by choice_ok.
  split; [exact H1|]. split; [exact H2|].
  exact (C6_medoid_set_valid X_pair (PyInt 1) [1] H1 H2).
Defined.

(** C7, as stated, fails: on the points 1, 0, 2 with [k = 2] and the draw
    [[2; 1]] the call returns medoids [[2; 1]]; point 0 is at distance 1
    from both medoids and is given label 0, the medoid with index 2,
    although the tied medoid with index 1 has the lower index. *)
Lemma C7_counterexample :
  valid_input X_tie (PyInt 2) = true /\
  is_choice (n_rows X_tie) (k_of (PyInt 2)) [2; 1] /\
  returns X_tie (PyInt 2) [2; 1] ([2; 1], [0; 1; 0], 1%R) /\
  entry (D_of X_tie) 0 2 = entry (D_of X_tie) 0 1 /\
  nth_error [2; 1] (nth 0 [0; 1; 0] 0) = Some 2 /\
  ~ (forall m, In m [2; 1] ->
       entry (D_of X_tie) 0 m = entry (D_of X_tie) 0 2 -> 2 <= m).
Proof.
  split; [reflexivity|]. split; [choice_ok|]. split; [|split; [|split]].
  - exists 1. rewrite run_X_tie. reflexivity.
  - rewrite D_X_tie. reflexivity.
  - reflexivity.
  - intros H. specialize (H 1). rewrite D_X_tie in H.
    assert (2 <= 1); [|lia]. apply H; [right; left; reflexivity | reflexivity].
Qed.

Lemma nth_map_entry (D : list (list R)) (i : nat) (M : list nat) (q : nat) :
  q < length M ->
  nth q (map (fun j => entry D i j) M) 0%R = entry D i (nth q M 0).
Proof.
  intros Hq. rewrite (nth_indep _ 0%R (entry D i 0)) by (rewrite length_map; exact Hq).
  apply (map_nth (fun j => entry D i j)).
Qed.

(** C7 (amended): in the result of every valid call the label of point [i]
    is a position of the returned medoid list whose medoid is at the least
    distance from [i], and every earlier position holds a medoid strictly
    farther away: among the medoids tied at the least distance the one that
    comes first in the returned list is chosen, whatever its index. *)
Theorem C7_first_position_wins (X k : pyobj) (choice M C : list nat) (cost : R) (i : nat) :
  valid_input X k = true -> returns X k choice (M, C, cost) -> i < n_rows X ->
  nth i C 0 < length M /\
  (forall q, q < length M ->
     (entry (D_of X) i (nth (nth i C 0%nat) M 0%nat) <= entry (D_of X) i (nth q M 0%nat))%R) /\
  (forall q, q < nth i C 0 ->
     (entry (D_of X) i (nth (nth i C 0%nat) M 0%nat) < entry (D_of X) i (nth q M 0%nat))%R).
Proof.
  intros Hv [fuel Hr] Hi.
  destruct (cluster_PAM_returned_inv _ _ _ _ _ Hv Hr) as (st & _ & Hf).
  destruct (D_of_square X) as [HD _].
  destruct (finalize_first_min (D_of X) (fst st) M C cost i Hf) as [_ (Hp & Hmin & Hfirst)].
  { rewrite HD. exact Hi. }
  rewrite length_map in Hp, Hmin. split; [exact Hp|]. split.
  - intros q Hq. specialize (Hmin q Hq).
    rewrite !nth_map_entry in Hmin by assumption. apply Rltb_ge in Hmin. exact Hmin.
  - intros q Hq. specialize (Hfirst q Hq).
    rewrite !nth_map_entry in Hfirst by lia. apply Rltb_lt in Hfirst. exact Hfirst.
Qed.

Lemma C7_witness :
  valid_input X_tie (PyInt 2) = true /\
  returns X_tie (PyInt 2) [2; 1] ([2; 1], [0; 1; 0], 1%R) /\
  0 < n_rows X_tie /\
  nth 0 [0; 1; 0] 0 < length [2; 1] /\
  (forall q, q < length [2; 1] ->
     (entry (D_of X_tie) 0 (nth (nth 0 [0; 1; 0] 0) [2; 1] 0)%nat
      <= entry (D_of X_tie) 0 (nth q [2; 1] 0)%nat)%R) /\
  (forall q, q < nth 0 [0; 1; 0] 0 ->
     (entry (D_of X_tie) 0 (nth (nth 0 [0; 1; 0] 0) [2; 1] 0)%nat
      < entry (D_of X_tie) 0 (nth q [2; 1] 0)%nat)%R).
Proof.
  assert (H1 : valid_input X_tie (PyInt 2) = true) by reflexivity.
  assert (H2 : returns X_tie (PyInt 2) [2; 1] ([2; 1], [0; 1; 0], 1%R))
    by (exists 1; rewrite run_X_tie; reflexivity).
  assert (H3 : 0 < n_rows X_tie) by (vm_compute; lia).
  split; [exact H1|]. split; [exact H2|]. split; [exact H3|].
  exact (C7_first_position_wins X_tie (PyInt 2) [2; 1] [2; 1] [0; 1; 0] 1%R 0 H1 H2 H3).
Defined.

(** C8 fails in the code: on the unsigned bytes 0, 1 and 255, a valid
    input, [X - X[i]] is computed in the dtype of [X] and wraps around:
    row 0 of the matrix holds 255 for point 2 and row 2 holds 1 for point
    0, so the matrix is not symmetric and its entries are not the Euclidean
    distances of the rows. *)
Theorem C8_uint8_matrix_not_symmetric :
  valid_input X_uint8 (PyInt 1) = true /\
  D_of X_uint8 = [[0; 1; 255]; [255; 0; 254]; [1; 2; 0]]%R /\
  entry (D_of X_uint8) 0 2 = 255%R /\
  entry (D_of X_uint8) 2 0 = 1%R /\
  entry (D_of X_uint8) 0 2 <> entry (D_of X_uint8) 2 0.
Proof.
  assert (HD : D_of X_uint8 = [[0; 1; 255]; [255; 0; 254]; [1; 2; 0]]%R).
  { unfold X_uint8, D_of, build_cost_matrix, distance_matrix_int.
    cbn [map vsub_int].
    change (wrap false 8 (0 - 0)) with 0%Z.
    change (wrap false 8 (1 - 0)) with 1%Z.
    change (wrap false 8 (255 - 0)) with 255%Z.
    change (wrap false 8 (0 - 1)) with 255%Z.
    change (wrap false 8 (1 - 1)) with 0%Z.
    change (wrap false 8 (255 - 1)) with 254%Z.
    change (wrap false 8 (0 - 255)) with 1%Z.
    change (wrap false 8 (1 - 255)) with 2%Z.
    change (wrap false 8 (255 - 255)) with 0%Z.
    unfold norm. cbn [fold_right]. repeat (f_equal; try dist_entry). }
  split; [reflexivity|]. split; [exact HD|]. rewrite HD. unfold entry. cbn [nth].
  split; [reflexivity|]. split; [reflexivity|]. lra.
Qed.

(** C9, as stated, fails: the draws [[0; 1]] and [[1; 0]] are the same
    initial medoid set, and on the scenario of the specification they end
    in the medoid lists [[2; 1]] and [[2; 0]]. *)
Lemma C9_counterexample :
  valid_input X_scenario (PyInt 2) = true /\
  is_choice (n_rows X_scenario) (k_of (PyInt 2)) [0; 1] /\
  is_choice (n_rows X_scenario) (k_of (PyInt 2)) [1; 0] /\
  set_eqb [0; 1] [1; 0] = true /\
  returns X_scenario (PyInt 2) [0; 1] ([2; 1], [1; 1; 0; 0], 2%R) /\
  returns X_scenario (PyInt 2) [1; 0] ([2; 0], [1; 1; 0; 0], 2%R) /\
  set_eqb [2; 1] [2; 0] = false.
Proof.
  assert (H181 : (13.4 < sqrt 181 < 13.5)%R) by (apply sqrt_between; lra).
  assert (H200 : (14.1 < sqrt 200 < 14.2)%R) by (apply sqrt_between; lra).
  assert (H221 : (14.8 < sqrt 221 < 14.9)%R) by (apply sqrt_between; lra).
  split; [reflexivity|]. split; [choice_ok|]. split; [choice_ok|].
  split; [reflexivity|].
  split; [|split; [|reflexivity]];
    exists 2; rewrite cluster_PAM_valid by reflexivity; rewrite D_X_scenario;
    change (n_rows X_scenario) with 4; run_PAM; repeat f_equal; lra.
Qed.

(** C9 (amended): on every valid input, the drawn list of initial medoids
    being fixed, order included, the call returns one result: any two runs
    with that draw that return agree on the medoid list, the assignment
    sequence and the final cost. *)
Theorem C9_deterministic_given_draw (X k : pyobj) (choice : list nat) :
  valid_input X k = true -> is_choice (n_rows X) (k_of k) choice ->
  exists r, returns X k choice r /\ forall r', returns X k choice r' -> r' = r.
Proof.
  intros Hv Hc.
  destruct (cluster_PAM_spec X k choice Hv Hc)
    as (fuel & b & tr & C0 & _ & _ & _ & _ & _ & _ & Hrun).
  assert (Hret : returns X k choice
                   (fst (last tr (choice, b)), C0, snd (last tr (choice, b)))).
  { exists fuel. rewrite Hrun. reflexivity. }
  eexists. split; [exact Hret|].
  intros r' Hr'. apply (returns_unique X k choice); assumption.
Qed.

Lemma C9_witness :
  valid_input X_tie (PyInt 2) = true /\
  is_choice (n_rows X_tie) (k_of (PyInt 2)) [2; 1] /\
  exists r, returns X_tie (PyInt 2) [2; 1] r /\
            forall r', returns X_tie (PyInt 2) [2; 1] r' -> r' = r.
Proof.
  assert (H1 : valid_input X_tie (PyInt 2) = true) by reflexivity.
  assert (H2 : is_choice (n_rows X_tie) (k_of (PyInt 2)) [2; 1]) by choice_ok.
  split; [exact H1|]. split; [exact H2|].
  exact (C9_deterministic_given_draw X_tie (PyInt 2) [2; 1] H1 H2).
Defined.

(** C10, as stated, fails: [k = True] does not run as [k = 1].  On the two
    points with the draw [[1]], the call with [k = 1] returns, and the call
    with [k = True] passes the checks, builds the distance matrix, and
    raises the [TypeError] of [np.random.choice], which takes [True] for
    the size of its result. *)
Lemma C10_counterexample :
  meets_preconditions X_pair (PyBool true) = true /\
  cluster_PAM 1 [1] X_pair (PyInt 1) = completed ([1], [0; 0], 1%R) /\
  cluster_PAM 1 [1] X_pair (PyBool true) =
    ([BuildDistanceMatrix; SearchMedoids;
      Printed (String.append "An error occurred: " msg_bool_size)],
     Raised (TypeError msg_bool_size)) /\
  ~ (exists r, returns X_pair (PyBool true) [1] r).
Proof.
  split; [reflexivity|]. split; [exact run_X_pair|]. split; [reflexivity|].
  intros [r [fuel H]]. discriminate H.
Qed.

(** C10 (amended): the check on [k] lets the Python boolean [True] through:
    on every two-dimensional numeric array with at least one row and no
    NaN the call with [k = True] passes all five checks and builds the
    distance matrix, and then fails in the random draw with a [TypeError],
    which is printed and raised again; no medoid is ever returned.  A NumPy
    integer scalar is refused on every two-dimensional array with the
    message of the check on [k], whatever its value. *)
Theorem C10_bool_passes_checks_numpy_int_rejected (fuel : nat) (choice : list nat) (X : pyobj) :
  is_matrix X = true -> 1 <= n_rows X -> has_nan X = false ->
  meets_preconditions X (PyBool true) = true /\
  cluster_PAM fuel choice X (PyBool true) =
    ([BuildDistanceMatrix; SearchMedoids;
      Printed (String.append "An error occurred: " msg_bool_size)],
     Raised (TypeError msg_bool_size)) /\
  (forall z, cluster_PAM fuel choice X (NpInt z) = rejected msg_bad_k) /\
  (forall z, meets_preconditions X (NpInt z) = false).
Proof.
  intros Hm Hn Hnan.
  assert (Hle : (1 <=? Z.of_nat (n_rows X))%Z = true) by (apply Z.leb_le; lia).
  assert (Hgt : (1 >? Z.of_nat (n_rows X))%Z = false)
    by (rewrite Z.gtb_ltb; apply Z.ltb_ge; lia).
  split; [|split; [|split]].
  - unfold meets_preconditions, positive_integer. rewrite Hm, Hnan. simpl.
    rewrite Hle. reflexivity.
  - destruct X as [| | | | | |a]; try discriminate.
    destruct a as [x|v|ncols rows|sg bits ncols rows|nrows ncols|extra]; try discriminate;
      simpl in Hgt, Hnan; unfold cluster_PAM;
      cbn [ndim Nat.eqb negb shape0 isinstance_int int_value orb Z.leb Z.compare];
      rewrite Hgt; cbn [np_any_isnan]; rewrite ?Hnan; reflexivity.
  - intros z. destruct X as [| | | | | |a]; try discriminate.
    destruct a; try discriminate; reflexivity.
  - intros z. unfold meets_preconditions, positive_integer. simpl.
    rewrite andb_false_r. reflexivity.
Qed.

Lemma C10_witness :
  is_matrix X_pair = true /\ 1 <= n_rows X_pair /\ has_nan X_pair = false /\
  meets_preconditions X_pair (PyBool true) = true /\
  cluster_PAM 3 [0] X_pair (PyBool true) =
    ([BuildDistanceMatrix; SearchMedoids;
      Printed (String.append "An error occurred: " msg_bool_size)],
     Raised (TypeError msg_bool_size)) /\
  (forall z, cluster_PAM 3 [0] X_pair (NpInt z) = rejected msg_bad_k) /\
  (forall z, meets_preconditions X_pair (NpInt z) = false).
Proof.
  assert (H1 : is_matrix X_pair = true) by reflexivity.
  assert (H2 : 1 <= n_rows X_pair) by (vm_compute; lia).
  assert (H3 : has_nan X_pair = false) by reflexivity.
  split; [exact H1|]. split; [exact H2|]. split; [exact H3|].
  exact (C10_bool_passes_checks_numpy_int_rejected 3 [0] X_pair H1 H2 H3).
Defined.

(** * Further properties of the code *)

(** ** What one scan selects *)

Section Scan_facts.

Variable T : Type.
Variable tzero : T.
Variable tadd : T -> T -> T.
Variable tltb : T -> T -> bool.

Hypothesis tltb_irrefl : forall a, tltb a a = false.
Hypothesis tltb_trans : forall a b c, tltb a b = true -> tltb b c = true -> tltb a c = true.
Hypothesis tltb_total : forall a b, tltb a b = false -> tltb b a = false -> a = b.

Variable D : list (list T).
Variable n k : nat.

Hypothesis D_square : square D n.
Hypothesis k_pos : 0 < k.

(** The scan either finds no candidate strictly below [b] and changes
    nothing, or ends on the first candidate, in scan order, whose trial cost
    is the least of all. *)
Lemma scan_char (cands m r : list nat) (x : nat) :
  valid_medoids n k m -> py_remove x m = Returned r -> Permutation m (x :: r) ->
  Forall (fun c => c < n) cands ->
  forall b bm, exists b' bm',
    scan tzero tadd tltb D cands m x b bm = Returned (b', bm') /\
    ((b' = b /\ bm' = bm /\
      forall c, In c cands -> ~ In c m ->
        tltb (cost_of tzero tadd tltb D (r ++ [c])) b = false) \/
     (tltb b' b = true /\
      exists pre post,
        cands = pre ++ bm' :: post /\ ~ In bm' m /\
        cost_of tzero tadd tltb D (r ++ [bm']) = b' /\
        (forall c, In c pre -> ~ In c m ->
           tltb b' (cost_of tzero tadd tltb D (r ++ [c])) = true) /\
        (forall c, In c post -> ~ In c m ->
           tltb (cost_of tzero tadd tltb D (r ++ [c])) b' = false))).
Proof.
  intros Hv Hrem Hp. induction cands as [|c cands IH]; intros Hc b bm.
  - exists b, bm. split; [reflexivity|]. left. repeat split. intros c [].
  - inversion Hc as [|? ? Hcn Hc']; subst. simpl.
    destruct (py_in c m) eqn:Hin; simpl.
    + apply py_in_spec in Hin.
      destruct (IH Hc' b bm) as (b' & bm' & Hs & Hcase). exists b', bm'.
      split; [exact Hs|]. destruct Hcase as [(-> & -> & Hno)|(Hlt & pre & post & -> & H1 & H2 & H3 & H4)].
      * left. repeat split. intros c' [<-|Hc0] Hnin; [contradiction | apply Hno; assumption].
      * right. split; [exact Hlt|]. exists (c :: pre), post. repeat split; try assumption.
        intros c' [<-|Hc0] Hnin; [contradiction | apply H3; assumption].
    + apply py_in_false in Hin. rewrite Hrem. simpl.
      pose proof (valid_swap n k m r x c Hv Hp Hcn Hin) as Hv'.
      rewrite (valid_cost T tzero tadd tltb D n k D_square k_pos _ Hv'). simpl.
      set (tc := cost_of tzero tadd tltb D (r ++ [c])).
      destruct (tltb tc b) eqn:Hlt.
      * destruct (IH Hc' tc c) as (b' & bm' & Hs & Hcase). exists b', bm'.
        split; [exact Hs|]. right.
        destruct Hcase as [(-> & -> & Hno)|(Hlt' & pre & post & -> & H1 & H2 & H3 & H4)].
        -- split; [exact Hlt|]. exists [], cands. repeat split; try assumption.
           intros c' [].
        -- split; [apply tltb_trans with tc; assumption|].
           exists (c :: pre), post. repeat split; try assumption.
           intros c' [<-|Hc0] Hnin; [exact Hlt' | apply H3; assumption].
      * destruct (IH Hc' b bm) as (b' & bm' & Hs & Hcase). exists b', bm'.
        split; [exact Hs|].
        destruct Hcase as [(-> & -> & Hno)|(Hlt' & pre & post & -> & H1 & H2 & H3 & H4)].
        -- left. repeat split.
           intros c' [<-|Hc0] Hnin; [exact Hlt | apply Hno; assumption].
        -- right. split; [exact Hlt'|]. exists (c :: pre), post.
           repeat split; try assumption.
           intros c' [<-|Hc0] Hnin; [|apply H3; assumption].
           fold tc. destruct (tltb b' tc) eqn:E; [reflexivity|].
           rewrite (tltb_false_trans T tltb tltb_trans tltb_total b' tc b E Hlt)
             in Hlt'. discriminate.
Qed.

Lemma seq_split_at (m c : nat) (pre post : list nat) :
  seq 0 m = pre ++ c :: post ->
  c < m /\ (forall c', c' < c -> In c' pre) /\ (forall c', In c' pre -> c' < c).
Proof.
  intros H.
  assert (Hlen : length pre < m).
  { pose proof (length_seq m 0) as E. rewrite H, length_app in E. simpl in E. lia. }
  assert (Hc : c = length pre).
  { assert (E : nth (length pre) (seq 0 m) 0 = c).
    { rewrite H. rewrite app_nth2 by lia. rewrite Nat.sub_diag. reflexivity. }
    rewrite seq_nth in E by exact Hlen. simpl in E. congruence. }
  assert (Hnth : forall i, i < length pre -> nth i pre 0 = i).
  { intros i Hi. rewrite <- (app_nth1 pre (c :: post) 0 Hi), <- H.
    rewrite seq_nth by lia. reflexivity. }
  split; [lia|]. split; intros c' Hc'.
  - rewrite <- (Hnth c') by lia. apply nth_In. lia.
  - destruct (In_nth pre c' 0 Hc') as (i & Hi & E). rewrite Hnth in E by exact Hi. lia.
Qed.

(** One execution of lines 52-73 on a consistent state: either no candidate
    is strictly below the best cost and the medoid moves to the end of the
    list, or the medoid is replaced by the least-numbered candidate among
    those of least trial cost. *)
Lemma swap_medoid_char (st : list nat * T) (x : nat) (r : list nat) :
  consistent tzero tadd tltb D n k st ->
  py_remove x (fst st) = Returned r -> Permutation (fst st) (x :: r) ->
  exists st',
    swap_medoid tzero tadd tltb D n st x = Returned st' /\
    consistent tzero tadd tltb D n k st' /\
    ((st' = (r ++ [x], snd st) /\
      forall c, c < n -> ~ In c (fst st) ->
        tltb (cost_of tzero tadd tltb D (r ++ [c])) (snd st) = false) \/
     (tltb (snd st') (snd st) = true /\
      exists c,
        c < n /\ ~ In c (fst st) /\
        st' = (r ++ [c], cost_of tzero tadd tltb D (r ++ [c])) /\
        (forall c', c' < c -> ~ In c' (fst st) ->
           tltb (snd st') (cost_of tzero tadd tltb D (r ++ [c'])) = true) /\
        (forall c', c' < n -> ~ In c' (fst st) ->
           tltb (cost_of tzero tadd tltb D (r ++ [c'])) (snd st') = false))).
Proof.
  intros Hok Hrem Hp.
  assert (Hx : In x (fst st))
    by (apply Permutation_in with (x :: r); [symmetry; exact Hp | left; reflexivity]).
  destruct (swap_medoid_spec T tzero tadd tltb tltb_irrefl tltb_trans tltb_total
              D n k D_square k_pos st x Hok Hx) as (st' & Hsw & Hok' & _ & _).
  exists st'. split; [exact Hsw|]. split; [exact Hok'|].
  destruct st as [m b]. simpl in *.
  assert (Hseq : Forall (fun c => c < n) (seq 0 n)).
  { apply Forall_forall. intros c Hc. apply in_seq in Hc. lia. }
  destruct (scan_char (seq 0 n) m r x (proj1 Hok) Hrem Hp Hseq b x)
    as (b' & bm' & Hs & Hcase).
  unfold swap_medoid in Hsw. rewrite Hs in Hsw. simpl in Hsw. rewrite Hrem in Hsw.
  simpl in Hsw. injection Hsw as <-.
  destruct Hcase as [(-> & -> & Hno)|(Hlt & pre & post & Hsplit & H1 & H2 & H3 & H4)].
  - left. split; [reflexivity|]. intros c Hc Hnin. apply Hno; [|exact Hnin].
    apply in_seq. lia.
  - right. simpl. split; [exact Hlt|]. exists bm'.
    destruct (seq_split_at n bm' pre post Hsplit) as (Hbn & Hpre & Hpre').
    split; [exact Hbn|]. split; [exact H1|]. split; [rewrite H2; reflexivity|]. split.
    + intros c' Hc' Hnin. apply H3; [apply Hpre; exact Hc' | exact Hnin].
    + intros c' Hc' Hnin.
      assert (Hin : In c' (pre ++ bm' :: post)) by (rewrite <- Hsplit; apply in_seq; lia).
      apply in_app_or in Hin. destruct Hin as [Hin|[<-|Hin]].
      * apply (tltb_asym T tltb tltb_irrefl tltb_trans). apply H3; assumption.
      * rewrite H2. apply tltb_irrefl.
      * apply H4; assumption.
Qed.

(** One pass over the whole medoid list: either nothing is replaced, every
    medoid has gone once to the end of the list, which is therefore back in
    its order, and no single replacement is strictly below the cost; or the
    pass ends strictly below the cost it started from. *)
Lemma pass_char (snap : list nat) :
  forall (done : list nat) (st : list nat * T),
    consistent tzero tadd tltb D n k st -> fst st = snap ++ done ->
    exists st',
      pass tzero tadd tltb D n snap st = Returned st' /\
      consistent tzero tadd tltb D n k st' /\
      ((st' = (done ++ snap, snd st) /\
        forall x r c, In x snap -> Permutation (fst st) (x :: r) ->
          c < n -> ~ In c (fst st) ->
          tltb (cost_of tzero tadd tltb D (r ++ [c])) (snd st) = false) \/
       tltb (snd st') (snd st) = true).
Proof.
  induction snap as [|x snap IH]; intros done st Hok Hfst.
  - exists st. split; [reflexivity|]. split; [exact Hok|]. left.
    simpl in Hfst. rewrite app_nil_r. rewrite <- Hfst. split; [destruct st; reflexivity|].
    intros x r c [].
  - assert (Hrem : py_remove x (fst st) = Returned (snap ++ done))
      by (rewrite Hfst; simpl; rewrite Nat.eqb_refl; reflexivity).
    assert (Hp : Permutation (fst st) (x :: snap ++ done)) by (rewrite Hfst; reflexivity).
    destruct (swap_medoid_char st x (snap ++ done) Hok Hrem Hp)
      as (st1 & Hsw & Hok1 & Hcase).
    simpl pass. rewrite Hsw. cbn [bind].
    destruct Hcase as [[-> Hno]|[Hlt Hcase]].
    + destruct (IH (done ++ [x]) ((snap ++ done) ++ [x], snd st) Hok1) as (st' & Hpass & Hok' & Hcase').
      { simpl. rewrite <- !app_assoc. reflexivity. }
      exists st'. split; [exact Hpass|]. split; [exact Hok'|].
      destruct Hcase' as [[-> Hno']|Hlt']; [left | right; exact Hlt'].
      simpl. split; [rewrite <- app_assoc; reflexivity|].
      assert (Hrot : Permutation (fst st) ((snap ++ done) ++ [x]))
        by (rewrite Hp; apply Permutation_cons_append).
      intros x' r c [<-|Hx'] Hpr Hc Hnin.
      * rewrite (cost_of_Permutation T tzero tadd tltb tltb_irrefl tltb_trans tltb_total
                   D (r ++ [c]) ((snap ++ done) ++ [c])).
        -- apply Hno; assumption.
        -- apply Permutation_app_tail. apply Permutation_cons_inv with x.
           rewrite <- Hpr. exact Hp.
      * apply (Hno' x' r c Hx'); simpl.
        -- rewrite <- Hrot. exact Hpr.
        -- exact Hc.
        -- intros Hin. apply Hnin. apply Permutation_in with ((snap ++ done) ++ [x]);
             [symmetry; exact Hrot | exact Hin].
    + destruct Hcase as (c & _ & _ & Hst1 & _).
      destruct (IH (done ++ [c]) st1 Hok1) as (st' & Hpass & Hok' & Hcase').
      { rewrite Hst1. simpl. rewrite <- !app_assoc. reflexivity. }
      exists st'. split; [exact Hpass|]. split; [exact Hok'|]. right.
      destruct Hcase' as [[-> _]|Hlt']; [exact Hlt|].
      apply tltb_trans with (snd st1); assumption.
Qed.

Lemma set_eqb_NoDup_Permutation (a b : list nat) :
  set_eqb a b = true -> NoDup a -> NoDup b -> Permutation a b.
Proof.
  unfold set_eqb. intros H Ha Hb. apply andb_true_iff in H. destruct H as [H1 H2].
  apply subset_b_spec in H1. apply subset_b_spec in H2.
  apply NoDup_Permutation; [exact Ha | exact Hb |].
  intros x. split; [apply H1 | apply H2].
Qed.

(** The state the loop returns is one that a further pass leaves as it is,
    and no replacement of one of its medoids by a non-medoid costs strictly
    less. *)
Lemma pam_loop_char (fuel : nat) :
  forall st st',
    consistent tzero tadd tltb D n k st ->
    pam_loop tzero tadd tltb D n fuel st = Returned st' ->
    consistent tzero tadd tltb D n k st' /\
    pass tzero tadd tltb D n (fst st') st' = Returned st' /\
    no_better_swap tzero tadd tltb D n (fst st') (snd st').
Proof.
  induction fuel as [|fuel IH]; intros st st' Hok H; [discriminate|].
  simpl in H.
  destruct (pass_char (fst st) [] st Hok) as (st1 & Hpass & Hok1 & Hcase).
  { rewrite app_nil_r. reflexivity. }
  rewrite Hpass in H. cbn [bind] in H.
  destruct (set_eqb (fst st1) (fst st)) eqn:Heq; [|apply (IH st1 st' Hok1 H)].
  injection H as <-.
  destruct Hcase as [[-> Hno]|Hlt].
  - simpl app in *. split; [exact Hok1|]. split.
    + simpl. destruct st as [m b]. simpl in *. exact Hpass.
    + simpl. intros x c m' tc Hx Hc Hnin Hsw Hcost.
      destruct (py_remove_In x (fst st) Hx) as (r & _ & Hp).
      assert (Hm' : Permutation (r ++ [c]) m').
      { rewrite <- Permutation_cons_append.
        apply Permutation_cons_inv with x. unfold swapped in Hsw.
        rewrite Hsw, Hp. apply perm_swap. }
      pose proof (valid_swap n k (fst st) r x c (proj1 Hok) Hp Hc Hnin) as Hv.
      pose proof (valid_Permutation n k _ _ Hm' Hv) as Hv'.
      rewrite (valid_cost T tzero tadd tltb D n k D_square k_pos _ Hv') in Hcost.
      injection Hcost as <-.
      rewrite <- (cost_of_Permutation T tzero tadd tltb tltb_irrefl tltb_trans tltb_total
                    D _ _ Hm').
      apply (Hno x r c); assumption.
  - exfalso.
    assert (Hp : Permutation (fst st) (fst st1)).
    { symmetry. apply set_eqb_NoDup_Permutation; [exact Heq | apply Hok1 | apply Hok]. }
    pose proof (consistent_cost_of T tzero tadd tltb D n k D_square k_pos st Hok) as E.
    pose proof (consistent_cost_of T tzero tadd tltb D n k D_square k_pos st1 Hok1) as E1.
    rewrite (cost_of_Permutation T tzero tadd tltb tltb_irrefl tltb_trans tltb_total
               D _ _ Hp) in E.
    rewrite <- E, E1, tltb_irrefl in Hlt. discriminate.
Qed.

(** With a bound on the passes the loop returns or is cut off; on a
    consistent state it raises nothing. *)
Lemma pam_loop_never_raises (fuel : nat) :
  forall st e,
    consistent tzero tadd tltb D n k st ->
    pam_loop tzero tadd tltb D n fuel st <> Raised e.
Proof.
  induction fuel as [|fuel IH]; intros st e Hok; [discriminate|].
  simpl.
  destruct (pass_char (fst st) [] st Hok) as (st1 & Hpass & Hok1 & _).
  { rewrite app_nil_r. reflexivity. }
  rewrite Hpass. cbn [bind].
  destruct (set_eqb (fst st1) (fst st)); [discriminate | apply IH; exact Hok1].
Qed.

End Scan_facts.

(** ** The call as a whole *)

Lemma set_eqb_refl (a : list nat) : set_eqb a a = true.
Proof. apply set_eqb_Permutation. reflexivity. Qed.

(** A list that no single replacement improves comes back from the
    optimiser as it went in, after one pass. *)
Lemma optimize_fixed (X k : pyobj) (M : list nat) (b : R) :
  valid_input X k = true -> valid_medoids (n_rows X) (k_of k) M ->
  cost_on X M = Returned b ->
  no_better_swap 0%R Rplus Rltb (D_of X) (n_rows X) M b ->
  optimize 0%R Rplus Rltb (D_of X) (n_rows X) 1 M = Returned (M, b).
Proof.
  intros Hv HM Hb Hnb. unfold cost_on in Hb.
  pose proof (D_of_square X) as Hsq. pose proof (k_of_pos X k Hv) as [Hk _].
  assert (Hok : consistent 0%R Rplus Rltb (D_of X) (n_rows X) (k_of k) (M, b))
    by (split; assumption).
  destruct (pass_char R 0%R Rplus Rltb Rltb_irrefl Rltb_trans Rltb_total
              (D_of X) (n_rows X) (k_of k) Hsq Hk M [] (M, b) Hok)
    as (st' & Hpass & _ & Hcase).
  { simpl. rewrite app_nil_r. reflexivity. }
  destruct (pass_no_better R 0%R Rplus Rltb Rltb_irrefl Rltb_trans Rltb_total
              (D_of X) (n_rows X) (k_of k) Hsq Hk M (M, b) Hok)
    as (st'' & Hpass' & _ & _ & He).
  { apply HM. }
  { apply incl_refl. }
  { exact Hnb. }
  simpl in Hpass, Hpass'. rewrite Hpass in Hpass'. injection Hpass' as <-.
  destruct Hcase as [[-> _]|Hlt].
  - unfold optimize. rewrite Hb. cbn [bind pam_loop fst]. rewrite Hpass. cbn [bind].
    simpl app. cbn [fst]. rewrite set_eqb_refl. reflexivity.
  - simpl in He, Hlt. rewrite He, Rltb_irrefl in Hlt. discriminate.
Qed.

(** What a returned result says about the optimiser that produced it. *)
Lemma returns_inv (X k : pyobj) (choice M C : list nat) (cost : R) :
  valid_input X k = true -> is_choice (n_rows X) (k_of k) choice ->
  returns X k choice (M, C, cost) ->
  (exists fuel, optimize 0%R Rplus Rltb (D_of X) (n_rows X) fuel choice = Returned (M, cost)) /\
  finalize 0%R Rplus Rltb (D_of X) M = Returned (M, C, cost) /\
  consistent 0%R Rplus Rltb (D_of X) (n_rows X) (k_of k) (M, cost) /\
  no_better_swap 0%R Rplus Rltb (D_of X) (n_rows X) M cost.
Proof.
  intros Hv Hc [fuel Hr].
  destruct (cluster_PAM_returned_inv _ _ _ _ _ Hv Hr) as (st & Ho & Hf).
  pose proof (D_of_square X) as Hsq. pose proof (k_of_pos X k Hv) as [Hk _].
  pose proof (is_choice_consistent X k choice Hv Hc) as Hok0.
  assert (Hloop : pam_loop 0%R Rplus Rltb (D_of X) (n_rows X) fuel
                    (choice, cost_of 0%R Rplus Rltb (D_of X) choice) = Returned st).
  { unfold optimize in Ho. destruct Hok0 as [_ Hcost]. simpl in Hcost.
    rewrite Hcost in Ho. exact Ho. }
  destruct (pam_loop_char R 0%R Rplus Rltb Rltb_irrefl Rltb_trans Rltb_total
              (D_of X) (n_rows X) (k_of k) Hsq Hk fuel _ st Hok0 Hloop)
    as (Hok & _ & Hnb).
  destruct (finalize_spec R 0%R Rplus Rltb (D_of X) (n_rows X) (k_of k) Hsq Hk
              (fst st) (proj1 Hok)) as (C' & Hf' & _).
  rewrite (consistent_cost_of R 0%R Rplus Rltb (D_of X) (n_rows X) (k_of k) Hsq Hk _ Hok)
    in Hf'.
  rewrite Hf' in Hf. injection Hf as <- <- <-.
  destruct st as [M cost]. simpl in *.
  split; [exists fuel; exact Ho|]. split; [exact Hf'|]. split; assumption.
Qed.

Lemma non_increasing_last (st : list nat * R) (tr : list (list nat * R)) :
  non_increasing Rltb st tr -> (snd (last tr st) <= snd st)%R.
Proof.
  revert st. induction tr as [|t tr IH]; intros st H.
  - simpl. lra.
  - rewrite last_cons_default. destruct H as [Hle H]. apply Rltb_ge in Hle.
    specialize (IH t H). lra.
Qed.

Lemma fold_left_Rplus_nonneg (l : list R) (a : R) :
  (0 <= a)%R -> Forall (fun x => 0 <= x)%R l -> (0 <= fold_left Rplus l a)%R.
Proof.
  revert a. induction l as [|x l IH]; intros a Ha Hl; simpl; [exact Ha|].
  inversion Hl; subst. apply IH; [lra | assumption].
Qed.

Lemma nth_nonneg (row : list R) (j : nat) :
  Forall (fun x => 0 <= x)%R row -> (0 <= nth j row 0)%R.
Proof.
  intros H. destruct (Nat.lt_ge_cases j (length row)) as [Hj|Hj].
  - rewrite Forall_forall in H. apply H. apply nth_In. exact Hj.
  - rewrite nth_overflow by exact Hj. lra.
Qed.

Lemma row_min_nonneg (l : list R) :
  Forall (fun x => 0 <= x)%R l -> (0 <= row_min 0%R Rltb l)%R.
Proof.
  intros H. destruct l as [|x xs]; simpl; [lra|].
  rewrite Forall_forall in H. apply H.
  apply fold_tmin_In; [apply Rltb_irrefl | apply Rltb_total].
Qed.

Lemma cost_of_nonneg (D : list (list R)) (M : list nat) :
  Forall (Forall (fun x => 0 <= x)%R) D -> (0 <= cost_of 0%R Rplus Rltb D M)%R.
Proof.
  intros HD. unfold cost_of, np_sum. apply fold_left_Rplus_nonneg; [lra|].
  apply Forall_forall. intros v Hv. apply in_map_iff in Hv. destruct Hv as (row & <- & Hrow).
  apply row_min_nonneg. apply Forall_forall. intros x Hx. apply in_map_iff in Hx.
  destruct Hx as (j & <- & _). apply nth_nonneg.
  rewrite Forall_forall in HD. apply HD. exact Hrow.
Qed.

(** The minimum of a row is the value at the position [np.argmin] gives. *)
Lemma np_min_at_argmin (l : list R) (v : R) (p : nat) :
  np_min Rltb l = Returned v -> np_argmin Rltb l = Returned p -> nth p l 0%R = v.
Proof.
  intros Hmin Harg.
  destruct (np_argmin_first R Rltb Rltb_irrefl Rltb_trans Rltb_total 0%R l p Harg)
    as (Hp & Hlow & _).
  destruct l as [|x xs]; [discriminate|]. simpl in Hmin. injection Hmin as <-.
  apply Rltb_total.
  - apply (fold_tmin_lower R Rltb Rltb_irrefl Rltb_trans Rltb_total).
    apply nth_In. exact Hp.
  - destruct (In_nth (x :: xs) (fold_left (tmin Rltb) xs x) 0%R) as (q & Hq & E).
    { apply fold_tmin_In; [apply Rltb_irrefl | apply Rltb_total]. }
    rewrite <- E. apply Hlow. exact Hq.
Qed.

Lemma finalize_inv (D : list (list R)) (m M C : list nat) (c : R) :
  finalize 0%R Rplus Rltb D m = Returned (M, C, c) ->
  M = m /\ length C = length D /\
  exists mins,
    c = np_sum 0%R Rplus mins /\ length mins = length D /\
    forall i, i < length D ->
      nth i C 0 < length M /\
      nth i mins 0%R = entry D i (nth (nth i C 0) M 0).
Proof.
  intros H. unfold finalize in H.
  apply bind_Returned in H. destruct H as (fm & Hfm & H).
  apply bind_Returned in H. destruct H as (mins & Hmins & H).
  apply bind_Returned in H. destruct H as (cl & Hcl & H).
  injection H as <- <- <-. split; [reflexivity|].
  destruct (mapM_nth_error _ _ _ Hfm) as [Lfm Nfm].
  destruct (mapM_nth_error _ _ _ Hmins) as [Lmins Nmins].
  destruct (mapM_nth_error _ _ _ Hcl) as [Lcl Ncl].
  split; [congruence|]. exists mins. split; [reflexivity|]. split; [congruence|].
  intros i Hi.
  destruct (nth_error D i) as [row|] eqn:Hrow; [|apply nth_error_None in Hrow; lia].
  destruct (Nfm i row Hrow) as (l & Hl & Htake).
  destruct (Nmins i l Hl) as (v & Hv & Hmin).
  destruct (Ncl i l Hl) as (p & Hp & Harg).
  rewrite (nth_error_nth _ _ 0 Hp), (nth_error_nth _ _ 0%R Hv).
  apply take_cols_Returned in Htake.
  destruct (np_argmin_first R Rltb Rltb_irrefl Rltb_trans Rltb_total 0%R l p Harg)
    as (Hpl & _).
  rewrite <- (np_min_at_argmin l v p Hmin Harg). subst l.
  rewrite length_map in Hpl. split; [exact Hpl|].
  unfold entry. rewrite (nth_error_nth _ _ [] Hrow).
  rewrite (nth_indep _ 0%R (nth 0 row 0%R)) by (rewrite length_map; exact Hpl).
  apply (map_nth (fun j => nth j row 0%R)).
Qed.

Lemma finalize_cost_sum (D : list (list R)) (m M C : list nat) (c : R) :
  finalize 0%R Rplus Rltb D m = Returned (M, C, c) ->
  c = np_sum 0%R Rplus (assigned_distances D M C).
Proof.
  intros H. destruct (finalize_inv D m M C c H) as (_ & LC & mins & -> & Lm & Hnth).
  f_equal. unfold assigned_distances.
  apply (nth_ext _ _ 0%R (entry D (fst (0, 0)) (nth (snd (0, 0)) M 0))).
  - rewrite length_map, length_combine, length_seq, LC, Lm. lia.
  - intros i Hi. rewrite Lm in Hi.
    rewrite (map_nth (fun ic => entry D (fst ic) (nth (snd ic) M 0))).
    rewrite combine_nth by (rewrite length_seq; congruence).
    rewrite seq_nth by exact Hi. simpl. apply Hnth. exact Hi.
Qed.

Lemma fold_left_Rplus_zeros (l : list R) :
  Forall (fun x => x = 0%R) l -> fold_left Rplus l 0%R = 0%R.
Proof.
  induction l as [|x l IH]; intros H; simpl; [reflexivity|].
  inversion H; subst. rewrite Rplus_0_r. apply IH. assumption.
Qed.

(** When every point is a medoid the cost is zero. *)
Lemma cost_of_all_medoids (D : list (list R)) (n : nat) (M : list nat) :
  square D n -> Forall (Forall (fun x => 0 <= x)%R) D ->
  (forall i, i < n -> entry D i i = 0%R) ->
  (forall i, i < n -> In i M) ->
  cost_of 0%R Rplus Rltb D M = 0%R.
Proof.
  intros [HD _] Hnn Hdiag Hall. unfold cost_of, np_sum. apply fold_left_Rplus_zeros.
  apply Forall_forall. intros v Hv. apply in_map_iff in Hv. destruct Hv as (row & <- & Hrow).
  assert (Hrn : Forall (fun x => 0 <= x)%R row).
  { rewrite Forall_forall in Hnn. apply Hnn, Hrow. }
  destruct (In_nth D row [] Hrow) as (i & Hi & Ei). rewrite HD in Hi.
  assert (Hzero : nth i row 0%R = 0%R).
  { rewrite <- Ei. apply (Hdiag i Hi). }
  set (l := map (fun j => nth j row 0%R) M).
  assert (Hin : In 0%R l).
  { rewrite <- Hzero. unfold l. apply (in_map (fun j => nth j row 0%R)). apply Hall, Hi. }
  assert (Hl : Forall (fun x => 0 <= x)%R l).
  { apply Forall_forall. intros x Hx. apply in_map_iff in Hx. destruct Hx as (j & <- & _).
    apply nth_nonneg. exact Hrn. }
  pose proof (row_min_nonneg l Hl) as Hge.
  destruct l as [|y ys]; [contradiction|]. simpl in *.
  pose proof (fold_tmin_lower R Rltb Rltb_irrefl Rltb_trans Rltb_total ys y 0%R Hin) as Hle.
  apply Rltb_ge in Hle. lra.
Qed.

Lemma all_indices_drawn (n : nat) (M : list nat) :
  is_choice n n M -> forall i, i < n -> In i M.
Proof.
  intros (Hl & Hnd & Hb) i Hi.
  apply (NoDup_length_incl Hnd (l' := seq 0 n)).
  - rewrite length_seq. lia.
  - intros j Hj. rewrite Forall_forall in Hb. apply in_seq. specialize (Hb j Hj). lia.
  - apply in_seq. lia.
Qed.

(** ** Validation (lines 24-33) *)

(** X1: the five checks are made in the order of the source and the first
    one that fails decides the message: not an array, not two-dimensional,
    [k] not a positive integer, [k] above the number of rows, a NaN entry.
    A bad [k] is reported even when [X] also holds a NaN. *)
Theorem X1_validation_order (fuel : nat) (choice : list nat) :
  (forall X k, (forall a, X <> NdArray a) ->
     cluster_PAM fuel choice X k = rejected msg_not_array) /\
  (forall a k, ndim a <> 2 ->
     cluster_PAM fuel choice (NdArray a) k = rejected msg_not_2d) /\
  (forall ncols rows k, positive_integer k = false ->
     cluster_PAM fuel choice (NdArray (Array2 ncols rows)) k = rejected msg_bad_k) /\
  (forall ncols rows k, positive_integer k = true ->
     (Z.of_nat (length rows) < int_value k)%Z ->
     cluster_PAM fuel choice (NdArray (Array2 ncols rows)) k = rejected msg_k_too_large) /\
  (forall ncols rows k, positive_integer k = true ->
     (int_value k <= Z.of_nat (length rows))%Z -> any_isnan rows = true ->
     cluster_PAM fuel choice (NdArray (Array2 ncols rows)) k = rejected msg_nan).
Proof.
  split; [|split; [|split; [|split]]].
  - intros X k HX. destruct X; try reflexivity. exfalso. apply (HX a). reflexivity.
  - intros a k Ha. destruct a; try reflexivity; exfalso; apply Ha; reflexivity.
  - intros ncols rows k Hk. unfold positive_integer in Hk.
    unfold cluster_PAM, shape0. cbn [ndim Nat.eqb negb].
    destruct (isinstance_int k); [|reflexivity]. simpl in Hk. cbn [negb orb].
    replace (int_value k <=? 0)%Z with true; [reflexivity|].
    symmetry. apply Z.leb_le. apply Z.ltb_ge in Hk. exact Hk.
  - intros ncols rows k Hk Hgt. unfold positive_integer in Hk.
    apply andb_true_iff in Hk. destruct Hk as [Hint Hpos]. apply Z.ltb_lt in Hpos.
    unfold cluster_PAM, shape0. cbn [ndim Nat.eqb negb].
    rewrite Hint. cbn [negb orb].
    replace (int_value k <=? 0)%Z with false by (symmetry; apply Z.leb_gt; lia).
    replace (int_value k >? Z.of_nat (length rows))%Z with true; [reflexivity|].
    symmetry. rewrite Z.gtb_ltb. apply Z.ltb_lt. exact Hgt.
  - intros ncols rows k Hk Hle Hnan. unfold positive_integer in Hk.
    apply andb_true_iff in Hk. destruct Hk as [Hint Hpos]. apply Z.ltb_lt in Hpos.
    unfold cluster_PAM, shape0. cbn [ndim Nat.eqb negb].
    rewrite Hint. cbn [negb orb].
    replace (int_value k <=? 0)%Z with false by (symmetry; apply Z.leb_gt; lia).
    replace (int_value k >? Z.of_nat (length rows))%Z with false
      by (symmetry; rewrite Z.gtb_ltb; apply Z.ltb_ge; lia).
    cbn [np_any_isnan]. rewrite Hnan. reflexivity.
Qed.

Lemma X1_witness :
  positive_integer (PyInt 5) = true /\
  (Z.of_nat (length [[NaN]]) < int_value (PyInt 5))%Z /\
  cluster_PAM 0 [] (NdArray (Array2 1 [[NaN]])) (PyInt 5) = rejected msg_k_too_large.
Proof.
  assert (H1 : positive_integer (PyInt 5) = true) by reflexivity.
  assert (H2 : (Z.of_nat (length [[NaN]]) < int_value (PyInt 5))%Z) by (simpl; lia).
  split; [exact H1|]. split; [exact H2|].
  exact (proj1 (proj2 (proj2 (proj2 (X1_validation_order 0 []))))
           1 [[NaN]] (PyInt 5) H1 H2).
Defined.

(** X2: an array without rows is refused whatever [k] is: by the check on
    [k] itself when [k] is not a positive integer, by the comparison with
    the number of rows otherwise. *)
Theorem X2_empty_array_rejected (fuel : nat) (choice : list nat) (ncols : nat) (k : pyobj) :
  cluster_PAM fuel choice (NdArray (Array2 ncols [])) k =
    (if positive_integer k then rejected msg_k_too_large else rejected msg_bad_k).
Proof.
  unfold positive_integer, cluster_PAM, shape0. cbn [ndim Nat.eqb negb length].
  destruct (isinstance_int k); [|reflexivity]. cbn [negb orb andb].
  destruct (0 <? int_value k)%Z eqn:Hpos.
  - apply Z.ltb_lt in Hpos.
    replace (int_value k <=? 0)%Z with false by (symmetry; apply Z.leb_gt; lia).
    replace (int_value k >? Z.of_nat 0)%Z with true; [reflexivity|].
    symmetry. rewrite Z.gtb_ltb. apply Z.ltb_lt. simpl. lia.
  - apply Z.ltb_ge in Hpos.
    replace (int_value k <=? 0)%Z with true; [reflexivity|].
    symmetry. apply Z.leb_le. exact Hpos.
Qed.

(** ** The run on valid input (lines 36-84) *)

(** X3: on valid input nothing is ever raised or printed, whatever bound
    is put on the passes: [list.remove] always finds the medoid, no column
    index is out of range and no row is empty.  The call returns after all
    three phases, or is cut off inside the medoid search. *)
Theorem X3_valid_call_never_raises (fuel : nat) (X k : pyobj) (choice : list nat) :
  valid_input X k = true -> is_choice (n_rows X) (k_of k) choice ->
  (exists r, cluster_PAM fuel choice X k = completed r) \/
  cluster_PAM fuel choice X k = ([BuildDistanceMatrix; SearchMedoids], OutOfFuel).
Proof.
  intros Hv Hc.
  pose proof (D_of_square X) as Hsq. pose proof (k_of_pos X k Hv) as [Hk _].
  pose proof (is_choice_consistent X k choice Hv Hc) as Hok.
  rewrite (cluster_PAM_valid fuel choice X k Hv). unfold lift, enter. cbn [rbind].
  unfold optimize. destruct Hok as [Hval Hcost]. simpl in Hval, Hcost. rewrite Hcost.
  cbn [bind].
  set (st0 := (choice, cost_of 0%R Rplus Rltb (D_of X) choice)).
  assert (Hok0 : consistent 0%R Rplus Rltb (D_of X) (n_rows X) (k_of k) st0)
    by (split; assumption).
  destruct (pam_loop 0%R Rplus Rltb (D_of X) (n_rows X) fuel st0) as [st|e|] eqn:Hloop.
  - left.
    destruct (pam_loop_char R 0%R Rplus Rltb Rltb_irrefl Rltb_trans Rltb_total
                (D_of X) (n_rows X) (k_of k) Hsq Hk fuel st0 st Hok0 Hloop) as (Hst & _).
    destruct (finalize_spec R 0%R Rplus Rltb (D_of X) (n_rows X) (k_of k) Hsq Hk
                (fst st) (proj1 Hst)) as (C & Hf & _).
    eexists. cbn [rbind]. rewrite Hf. reflexivity.
  - exfalso.
    apply (pam_loop_never_raises R 0%R Rplus Rltb Rltb_irrefl Rltb_trans Rltb_total
             (D_of X) (n_rows X) (k_of k) Hsq Hk fuel st0 e Hok0 Hloop).
  - right. reflexivity.
Qed.

Lemma X3_witness :
  valid_input X_tie (PyInt 2) = true /\
  is_choice (n_rows X_tie) (k_of (PyInt 2)) [0; 1] /\
  ((exists r, cluster_PAM 0 [0; 1] X_tie (PyInt 2) = completed r) \/
   cluster_PAM 0 [0; 1] X_tie (PyInt 2) = ([BuildDistanceMatrix; SearchMedoids], OutOfFuel)).
Proof.
  assert (H1 : valid_input X_tie (PyInt 2) = true) by reflexivity.
  assert (H2 : is_choice (n_rows X_tie) (k_of (PyInt 2)) [0; 1]) by choice_ok.
  split; [exact H1|]. split; [exact H2|].
  exact (X3_valid_call_never_raises 0 X_tie (PyInt 2) [0; 1] H1 H2).
Defined.

Lemma cost_on_swap (X k : pyobj) (m r : list nat) (x c : nat) :
  valid_input X k = true -> valid_medoids (n_rows X) (k_of k) m ->
  Permutation m (x :: r) -> c < n_rows X -> ~ In c m ->
  cost_on X (r ++ [c]) = Returned (cost_of 0%R Rplus Rltb (D_of X) (r ++ [c])).
Proof.
  intros Hv Hm Hp Hc Hnin. unfold cost_on.
  apply valid_cost with (n := n_rows X) (k := k_of k).
  - apply D_of_square.
  - apply (k_of_pos X k Hv).
  - apply valid_swap with m x; assumption.
Qed.

(** X4: one execution of lines 52-73 on a state the optimiser can be in.
    If no non-medoid gives a trial cost strictly below the best cost, the
    medoid is only moved to the end of the list and the cost stays.
    Otherwise the medoid is replaced by the candidate of least trial cost,
    the least-numbered one when several candidates share that cost, and the
    best cost becomes that trial cost. *)
Theorem X4_swap_takes_first_best (X k : pyobj) (st : list nat * R) (x : nat) :
  valid_input X k = true ->
  consistent 0%R Rplus Rltb (D_of X) (n_rows X) (k_of k) st -> In x (fst st) ->
  exists r st',
    py_remove x (fst st) = Returned r /\
    swap_medoid 0%R Rplus Rltb (D_of X) (n_rows X) st x = Returned st' /\
    ((st' = (r ++ [x], snd st) /\
      forall c tc, c < n_rows X -> ~ In c (fst st) ->
        cost_on X (r ++ [c]) = Returned tc -> (snd st <= tc)%R) \/
     (exists c,
        c < n_rows X /\ ~ In c (fst st) /\ fst st' = r ++ [c] /\
        cost_on X (r ++ [c]) = Returned (snd st') /\ (snd st' < snd st)%R /\
        (forall c' tc, c' < c -> ~ In c' (fst st) ->
           cost_on X (r ++ [c']) = Returned tc -> (snd st' < tc)%R) /\
        (forall c' tc, c' < n_rows X -> ~ In c' (fst st) ->
           cost_on X (r ++ [c']) = Returned tc -> (snd st' <= tc)%R))).
Proof.
  intros Hv Hok Hx.
  pose proof (D_of_square X) as Hsq. pose proof (k_of_pos X k Hv) as [Hk _].
  destruct (py_remove_In x (fst st) Hx) as (r & Hrem & Hp).
  destruct (swap_medoid_char R 0%R Rplus Rltb Rltb_irrefl Rltb_trans Rltb_total
              (D_of X) (n_rows X) (k_of k) Hsq Hk st x r Hok Hrem Hp)
    as (st' & Hsw & Hok' & Hcase).
  exists r, st'. split; [exact Hrem|]. split; [exact Hsw|].
  assert (Htc : forall c tc, c < n_rows X -> ~ In c (fst st) ->
                  cost_on X (r ++ [c]) = Returned tc ->
                  tc = cost_of 0%R Rplus Rltb (D_of X) (r ++ [c])).
  { intros c tc Hc Hnin Hcost.
    rewrite (cost_on_swap X k (fst st) r x c Hv (proj1 Hok) Hp Hc Hnin) in Hcost.
    congruence. }
  destruct Hcase as [[-> Hno]|(Hlt & c & Hc & Hnin & -> & Hfirst & Hall)].
  - left. split; [reflexivity|]. intros c tc Hc Hnin Hcost.
    rewrite (Htc c tc Hc Hnin Hcost). apply Rltb_ge. apply Hno; assumption.
  - right. exists c. simpl in *. split; [exact Hc|]. split; [exact Hnin|].
    split; [reflexivity|].
    split; [apply (cost_on_swap X k (fst st) r x c Hv (proj1 Hok) Hp Hc Hnin)|].
    split; [apply Rltb_lt; exact Hlt|]. split.
    + intros c' tc Hc' Hnin' Hcost. rewrite (Htc c' tc) by (try assumption; lia).
      apply Rltb_lt. apply Hfirst; assumption.
    + intros c' tc Hc' Hnin' Hcost. rewrite (Htc c' tc) by assumption.
      apply Rltb_ge. apply Hall; assumption.
Qed.

Lemma consistent_X_pair :
  consistent 0%R Rplus Rltb (D_of X_pair) (n_rows X_pair) (k_of (PyInt 1)) ([1], 1%R).
Proof.
  split.
  - change (valid_medoids 2 1 [1]). unfold valid_medoids. split; [reflexivity | split].
    + repeat (constructor; [simpl; intuition lia|]); constructor.
    + repeat (constructor; [lia|]); constructor.
  - cbn [fst snd]. rewrite D_X_pair. run_PAM. f_equal. lra.
Qed.

Lemma X4_witness :
  valid_input X_pair (PyInt 1) = true /\
  consistent 0%R Rplus Rltb (D_of X_pair) (n_rows X_pair) (k_of (PyInt 1)) ([1], 1%R) /\
  In 1 (fst ([1], 1%R)) /\
  exists r st',
    py_remove 1 (fst ([1], 1%R)) = Returned r /\
    swap_medoid 0%R Rplus Rltb (D_of X_pair) (n_rows X_pair) ([1], 1%R) 1 = Returned st' /\
    ((st' = (r ++ [1], snd ([1], 1%R)) /\
      forall c tc, c < n_rows X_pair -> ~ In c (fst ([1], 1%R)) ->
        cost_on X_pair (r ++ [c]) = Returned tc -> (snd ([1], 1%R) <= tc)%R) \/
     (exists c,
        c < n_rows X_pair /\ ~ In c (fst ([1], 1%R)) /\ fst st' = r ++ [c] /\
        cost_on X_pair (r ++ [c]) = Returned (snd st') /\ (snd st' < snd ([1], 1%R))%R /\
        (forall c' tc, c' < c -> ~ In c' (fst ([1], 1%R)) ->
           cost_on X_pair (r ++ [c']) = Returned tc -> (snd st' < tc)%R) /\
        (forall c' tc, c' < n_rows X_pair -> ~ In c' (fst ([1], 1%R)) ->
           cost_on X_pair (r ++ [c']) = Returned tc -> (snd st' <= tc)%R))).
Proof.
  assert (H1 : valid_input X_pair (PyInt 1) = true) by reflexivity.
  pose proof consistent_X_pair as H2.
  assert (H3 : In 1 (fst ([1], 1%R))) by (left; reflexivity).
  split; [exact H1|]. split; [exact H2|]. split; [exact H3|].
  exact (X4_swap_takes_first_best X_pair (PyInt 1) ([1], 1%R) 1 H1 H2 H3).
Defined.

(** X5: the returned medoid list is a local optimum: replacing any one of
    its medoids by any point that is not a medoid gives a cost that is not
    below the returned final cost. *)
Theorem X5_result_locally_optimal (X k : pyobj) (choice M C : list nat) (cost : R) :
  valid_input X k = true -> is_choice (n_rows X) (k_of k) choice ->
  returns X k choice (M, C, cost) ->
  forall x c M' tc,
    In x M -> c < n_rows X -> ~ In c M -> swapped M x c M' ->
    cost_on X M' = Returned tc -> (cost <= tc)%R.
Proof.
  intros Hv Hc Hr x c M' tc Hx Hcn Hnin Hsw Hcost.
  destruct (returns_inv X k choice M C cost Hv Hc Hr) as (_ & _ & _ & Hnb).
  apply Rltb_ge. apply (Hnb x c M' tc); assumption.
Qed.

Lemma returns_X_tie : returns X_tie (PyInt 2) [2; 1] ([2; 1], [0; 1; 0], 1%R).
Proof. exists 1. rewrite run_X_tie. reflexivity. Qed.

Lemma X5_witness :
  valid_input X_tie (PyInt 2) = true /\
  is_choice (n_rows X_tie) (k_of (PyInt 2)) [2; 1] /\
  returns X_tie (PyInt 2) [2; 1] ([2; 1], [0; 1; 0], 1%R) /\
  forall x c M' tc,
    In x [2; 1] -> c < n_rows X_tie -> ~ In c [2; 1] -> swapped [2; 1] x c M' ->
    cost_on X_tie M' = Returned tc -> (1 <= tc)%R.
Proof.
  assert (H1 : valid_input X_tie (PyInt 2) = true) by reflexivity.
  assert (H2 : is_choice (n_rows X_tie) (k_of (PyInt 2)) [2; 1]) by choice_ok.
  pose proof returns_X_tie as H3.
  split; [exact H1|]. split; [exact H2|]. split; [exact H3|].
  exact (X5_result_locally_optimal X_tie (PyInt 2) [2; 1] [2; 1] [0; 1; 0] 1%R H1 H2 H3).
Defined.

(** X6: the result is stable: a call whose draw is the medoid list that an
    earlier call returned ends after one pass and returns the same medoid
    list, in the same order, with the same labels and the same cost. *)
Theorem X6_rerun_from_result (X k : pyobj) (choice M C : list nat) (cost : R) :
  valid_input X k = true -> is_choice (n_rows X) (k_of k) choice ->
  returns X k choice (M, C, cost) ->
  cluster_PAM 1 M X k = completed (M, C, cost).
Proof.
  intros Hv Hc Hr.
  destruct (returns_inv X k choice M C cost Hv Hc Hr) as (_ & Hf & [HM Hcost] & Hnb).
  simpl in HM, Hcost.
  apply cluster_PAM_returns with (st := (M, cost)); [exact Hv | | exact Hf].
  apply (optimize_fixed X k M cost Hv HM Hcost Hnb).
Qed.

Lemma X6_witness :
  valid_input X_tie (PyInt 2) = true /\
  is_choice (n_rows X_tie) (k_of (PyInt 2)) [2; 1] /\
  returns X_tie (PyInt 2) [2; 1] ([2; 1], [0; 1; 0], 1%R) /\
  cluster_PAM 1 [2; 1] X_tie (PyInt 2) = completed ([2; 1], [0; 1; 0], 1%R).
Proof.
  assert (H1 : valid_input X_tie (PyInt 2) = true) by reflexivity.
  assert (H2 : is_choice (n_rows X_tie) (k_of (PyInt 2)) [2; 1]) by choice_ok.
  pose proof returns_X_tie as H3.
  split; [exact H1|]. split; [exact H2|]. split; [exact H3|].
  exact (X6_rerun_from_result X_tie (PyInt 2) [2; 1] [2; 1] [0; 1; 0] 1%R H1 H2 H3).
Defined.

(** X7: the final cost is not negative and not above the cost of the
    medoid list that was drawn. *)
Theorem X7_final_cost_bounds (X k : pyobj) (choice M C : list nat) (cost b : R) :
  valid_input X k = true -> is_choice (n_rows X) (k_of k) choice ->
  returns X k choice (M, C, cost) -> cost_on X choice = Returned b ->
  (0 <= cost <= b)%R.
Proof.
  intros Hv Hc Hr Hb.
  destruct (returns_inv X k choice M C cost Hv Hc Hr) as ([fuel Ho] & _ & Hok & _).
  pose proof (D_of_square X) as Hsq. pose proof (k_of_pos X k Hv) as [Hk _].
  split.
  - pose proof (consistent_cost_of R 0%R Rplus Rltb (D_of X) (n_rows X) (k_of k)
                  Hsq Hk (M, cost) Hok) as E.
    simpl in E. rewrite <- E. apply cost_of_nonneg. apply D_of_nonneg.
  - destruct (optimizer_spec X k choice Hv Hc)
      as (fuel' & b' & tr & Hb' & _ & Ho' & _ & Hmono).
    assert (b' = b) by congruence. subst b'.
    pose proof (optimize_unique X choice fuel fuel' _ _ Ho Ho') as E.
    pose proof (non_increasing_last (choice, b) tr Hmono) as Hle.
    rewrite <- E in Hle. exact Hle.
Qed.

Lemma X7_witness :
  valid_input X_tie (PyInt 2) = true /\
  is_choice (n_rows X_tie) (k_of (PyInt 2)) [2; 1] /\
  returns X_tie (PyInt 2) [2; 1] ([2; 1], [0; 1; 0], 1%R) /\
  cost_on X_tie [2; 1] = Returned 1%R /\
  (0 <= 1 <= 1)%R.
Proof.
  assert (H1 : valid_input X_tie (PyInt 2) = true) by reflexivity.
  assert (H2 : is_choice (n_rows X_tie) (k_of (PyInt 2)) [2; 1]) by choice_ok.
  pose proof returns_X_tie as H3.
  assert (H4 : cost_on X_tie [2; 1] = Returned 1%R)
    by (unfold cost_on; rewrite D_X_tie; run_PAM; f_equal; lra).
  split; [exact H1|]. split; [exact H2|]. split; [exact H3|]. split; [exact H4|].
  exact (X7_final_cost_bounds X_tie (PyInt 2) [2; 1] [2; 1] [0; 1; 0] 1%R 1%R H1 H2 H3 H4).
Defined.

(** X8: the final cost and the labels agree: the final cost is the sum,
    over all points, of the distance from the point to the medoid that its
    label designates. *)
Theorem X8_final_cost_is_assigned_sum (X k : pyobj) (choice M C : list nat) (cost : R) :
  valid_input X k = true -> returns X k choice (M, C, cost) ->
  cost = np_sum 0%R Rplus (assigned_distances (D_of X) M C).
Proof.
  intros Hv [fuel Hr].
  destruct (cluster_PAM_returned_inv _ _ _ _ _ Hv Hr) as (st & _ & Hf).
  apply (finalize_cost_sum (D_of X) (fst st) M C cost Hf).
Qed.

Lemma X8_witness :
  valid_input X_tie (PyInt 2) = true /\
  returns X_tie (PyInt 2) [2; 1] ([2; 1], [0; 1; 0], 1%R) /\
  1%R = np_sum 0%R Rplus (assigned_distances (D_of X_tie) [2; 1] [0; 1; 0]).
Proof.
  assert (H1 : valid_input X_tie (PyInt 2) = true) by reflexivity.
  pose proof returns_X_tie as H2.
  split; [exact H1|]. split; [exact H2|].
  exact (X8_final_cost_is_assigned_sum X_tie (PyInt 2) [2; 1] [2; 1] [0; 1; 0] 1%R H1 H2).
Defined.

(** A draw that no single replacement improves is returned as it is. *)
Lemma fixed_draw_returned (X k : pyobj) (choice : list nat) (b : R) :
  valid_input X k = true -> is_choice (n_rows X) (k_of k) choice ->
  cost_on X choice = Returned b ->
  no_better_swap 0%R Rplus Rltb (D_of X) (n_rows X) choice b ->
  exists C, cluster_PAM 1 choice X k = completed (choice, C, b).
Proof.
  intros Hv Hc Hb Hnb.
  pose proof (D_of_square X) as Hsq. pose proof (k_of_pos X k Hv) as [Hk _].
  pose proof (optimize_fixed X k choice b Hv Hc Hb Hnb) as Ho.
  destruct (finalize_spec R 0%R Rplus Rltb (D_of X) (n_rows X) (k_of k) Hsq Hk
              choice Hc) as (C & Hf & _).
  assert (E : cost_of 0%R Rplus Rltb (D_of X) choice = b).
  { pose proof (is_choice_consistent X k choice Hv Hc) as [_ Hcost]. simpl in Hcost.
    unfold cost_on in Hb. congruence. }
  rewrite E in Hf. exists C.
  apply cluster_PAM_returns with (st := (choice, b)); assumption.
Qed.

(** X9: with [k] equal to the number of points every point is a medoid:
    the call ends after one pass and returns the drawn list itself, in the
    order drawn, with final cost zero. *)
Theorem X9_every_point_a_medoid (X k : pyobj) (choice : list nat) :
  valid_input X k = true -> is_choice (n_rows X) (k_of k) choice ->
  k_of k = n_rows X ->
  exists C, cluster_PAM 1 choice X k = completed (choice, C, 0%R).
Proof.
  intros Hv Hc Hkn.
  assert (Hall : forall i, i < n_rows X -> In i choice).
  { apply all_indices_drawn. rewrite Hkn in Hc. exact Hc. }
  apply fixed_draw_returned; try assumption.
  - pose proof (is_choice_consistent X k choice Hv Hc) as [_ Hcost]. simpl in Hcost.
    unfold cost_on. rewrite Hcost. f_equal.
    apply (cost_of_all_medoids (D_of X) (n_rows X));
      [apply D_of_square | apply D_of_nonneg | apply D_of_diag | exact Hall].
  - intros x c m' tc _ Hcn Hnin. exfalso. apply Hnin, Hall, Hcn.
Qed.

Lemma X9_witness :
  valid_input X_pair (PyInt 2) = true /\
  is_choice (n_rows X_pair) (k_of (PyInt 2)) [1; 0] /\
  k_of (PyInt 2) = n_rows X_pair /\
  exists C, cluster_PAM 1 [1; 0] X_pair (PyInt 2) = completed ([1; 0], C, 0%R).
Proof.
  assert (H1 : valid_input X_pair (PyInt 2) = true) by reflexivity.
  assert (H2 : is_choice (n_rows X_pair) (k_of (PyInt 2)) [1; 0]) by choice_ok.
  assert (H3 : k_of (PyInt 2) = n_rows X_pair) by reflexivity.
  split; [exact H1|]. split; [exact H2|]. split; [exact H3|].
  exact (X9_every_point_a_medoid X_pair (PyInt 2) [1; 0] H1 H2 H3).
Defined.

(** X11: when no replacement of a drawn medoid by a non-medoid costs
    strictly less than the drawn list, the call ends after one pass and
    returns the drawn list itself, in the order drawn, with its cost. *)
Theorem X11_optimal_draw_unchanged (X k : pyobj) (choice : list nat) (b : R) :
  valid_input X k = true -> is_choice (n_rows X) (k_of k) choice ->
  cost_on X choice = Returned b ->
  (forall x c M' tc,
     In x choice -> c < n_rows X -> ~ In c choice -> swapped choice x c M' ->
     cost_on X M' = Returned tc -> (b <= tc)%R) ->
  exists C, cluster_PAM 1 choice X k = completed (choice, C, b).
Proof.
  intros Hv Hc Hb Hnb. apply fixed_draw_returned; try assumption.
  intros x c m' tc Hx Hcn Hnin Hsw Hcost. apply Rltb_ge.
  apply (Hnb x c m' tc); assumption.
Qed.

Lemma X11_witness :
  valid_input X_pair (PyInt 1) = true /\
  is_choice (n_rows X_pair) (k_of (PyInt 1)) [1] /\
  cost_on X_pair [1] = Returned 1%R /\
  (forall x c M' tc,
     In x [1] -> c < n_rows X_pair -> ~ In c [1] -> swapped [1] x c M' ->
     cost_on X_pair M' = Returned tc -> (1 <= tc)%R) /\
  exists C, cluster_PAM 1 [1] X_pair (PyInt 1) = completed ([1], C, 1%R).
Proof.
  assert (H1 : valid_input X_pair (PyInt 1) = true) by reflexivity.
  assert (H2 : is_choice (n_rows X_pair) (k_of (PyInt 1)) [1]) by choice_ok.
  assert (H3 : cost_on X_pair [1] = Returned 1%R) by apply consistent_X_pair.
  assert (H4 : forall x c M' tc,
             In x [1] -> c < n_rows X_pair -> ~ In c [1] -> swapped [1] x c M' ->
             cost_on X_pair M' = Returned tc -> (1 <= tc)%R).
  { intros x c M' tc Hx Hc Hnin Hsw Hcost. apply Rltb_ge.
    apply (no_better_swap_X_pair x c M' tc); assumption. }
  split; [exact H1|]. split; [exact H2|]. split; [exact H3|]. split; [exact H4|].
  exact (X11_optimal_draw_unchanged X_pair (PyInt 1) [1] 1%R H1 H2 H3 H4).
Defined.

(** X10: on a square matrix with a zero diagonal and strictly positive
    entries off the diagonal, the finaliser gives every medoid the label of
    its own position in the medoid list; so every label from 0 to [k - 1]
    is in use and no cluster is empty. *)
Theorem X10_medoid_gets_own_position (D : list (list R)) (n k : nat) (M : list nat) :
  square D n -> 0 < k -> valid_medoids n k M ->
  (forall i, i < n -> entry D i i = 0%R) ->
  (forall i j, i < n -> j < n -> i <> j -> (0 < entry D i j)%R) ->
  exists C cost,
    finalize 0%R Rplus Rltb D M = Returned (M, C, cost) /\
    forall p, p < length M -> nth (nth p M 0) C 0 = p.
Proof.
  intros Hsq Hk HM Hdiag Hpos.
  destruct (finalize_spec R 0%R Rplus Rltb D n k Hsq Hk M HM) as (C & Hf & _).
  exists C, (cost_of 0%R Rplus Rltb D M). split; [exact Hf|].
  intros p Hp. destruct HM as (_ & HndM & HbM). destruct Hsq as [HD _].
  set (m := nth p M 0).
  assert (Hm : m < n).
  { rewrite Forall_forall in HbM. apply HbM. apply nth_In. exact Hp. }
  destruct (finalize_first_min D M M C _ m Hf) as [_ (Hq & Hlow & _)].
  { rewrite HD. exact Hm. }
  rewrite length_map in Hq, Hlow.
  set (q := nth m C 0) in *.
  specialize (Hlow p Hp). rewrite !nth_map_entry in Hlow by assumption.
  apply Rltb_ge in Hlow. fold m in Hlow. rewrite (Hdiag m Hm) in Hlow.
  assert (Hmq : nth q M 0 < n).
  { rewrite Forall_forall in HbM. apply HbM. apply nth_In. exact Hq. }
  assert (Hidx : nth q M 0 = m).
  { destruct (Nat.eq_dec (nth q M 0) m) as [E|E]; [exact E|].
    pose proof (Hpos m (nth q M 0) Hm Hmq (fun H => E (eq_sym H))). lra. }
  apply (proj1 (NoDup_nth M 0) HndM); assumption.
Qed.

Lemma X10_witness :
  square [[0; 1; 1]; [1; 0; 2]; [1; 2; 0]]%R 3 /\ 0 < 2 /\ valid_medoids 3 2 [2; 1] /\
  (forall i, i < 3 -> entry [[0; 1; 1]; [1; 0; 2]; [1; 2; 0]]%R i i = 0%R) /\
  (forall i j, i < 3 -> j < 3 -> i <> j ->
     (0 < entry [[0; 1; 1]; [1; 0; 2]; [1; 2; 0]]%R i j)%R) /\
  exists C cost,
    finalize 0%R Rplus Rltb [[0; 1; 1]; [1; 0; 2]; [1; 2; 0]]%R [2; 1]
      = Returned ([2; 1], C, cost) /\
    forall p, p < length [2; 1] -> nth (nth p [2; 1] 0) C 0 = p.
Proof.
  assert (H1 : square [[0; 1; 1]; [1; 0; 2]; [1; 2; 0]]%R 3)
    by (split; [reflexivity | repeat constructor]).
  assert (H2 : 0 < 2) by lia.
  assert (H3 : valid_medoids 3 2 [2; 1]) by choice_ok.
  assert (H4 : forall i, i < 3 -> entry [[0; 1; 1]; [1; 0; 2]; [1; 2; 0]]%R i i = 0%R).
  { intros i Hi. destruct i as [|[|[|i]]]; [reflexivity | reflexivity | reflexivity | lia]. }
  assert (H5 : forall i j, i < 3 -> j < 3 -> i <> j ->
                 (0 < entry [[0; 1; 1]; [1; 0; 2]; [1; 2; 0]]%R i j)%R).
  { intros i j Hi Hj Hij.
    destruct i as [|[|[|i]]]; [| | |lia];
      (destruct j as [|[|[|j]]]; [| | |lia]); unfold entry; cbn [nth]; try lra; lia. }
  split; [exact H1|]. split; [exact H2|]. split; [exact H3|].
  split; [exact H4|]. split; [exact H5|].
  exact (X10_medoid_gets_own_position [[0; 1; 1]; [1; 0; 2]; [1; 2; 0]]%R 3 2 [2; 1]
           H1 H2 H3 H4 H5).
Defined.

(** ** A bound on the passes, and the cost as a function of the set *)

Lemma length_all_lists (n k : nat) : length (all_lists n k) = n ^ k.
Proof.
  induction k as [|k IH]; [reflexivity|].
  simpl all_lists.
  assert (H : forall l : list nat,
            length (flat_map (fun i => map (cons i) (all_lists n k)) l)
            = length l * length (all_lists n k)).
  { induction l as [|i l IHl]; simpl; [reflexivity|].
    rewrite length_app, length_map, IHl. reflexivity. }
  rewrite H, length_seq, IH. simpl. reflexivity.
Qed.

(** X13: on valid input the loop needs at most [n ^ k + 1] passes: with
    that bound the call always runs to its end. *)
Theorem X13_pass_bound (X k : pyobj) (choice : list nat) :
  valid_input X k = true -> is_choice (n_rows X) (k_of k) choice ->
  exists r, cluster_PAM (S (n_rows X ^ k_of k)) choice X k = completed r.
Proof.
  intros Hv Hc.
  pose proof (D_of_square X) as Hsq. pose proof (k_of_pos X k Hv) as [Hk _].
  pose proof (is_choice_consistent X k choice Hv Hc) as Hok.
  set (b := cost_of 0%R Rplus Rltb (D_of X) choice) in *.
  destruct (pam_trace_terminates R 0%R Rplus Rltb Rltb_irrefl Rltb_trans Rltb_total
              (D_of X) (n_rows X) (k_of k) Hsq Hk (S (n_rows X ^ k_of k)) (choice, b) Hok)
    as (tr & Htr & Hall & _).
  { unfold below. simpl snd.
    pose proof (filter_length_le
                  (fun m => Rltb (cost_of 0%R Rplus Rltb (D_of X) m) b)
                  (all_lists (n_rows X) (k_of k))) as Hle.
    rewrite length_all_lists in Hle. lia. }
  assert (Hlast : consistent 0%R Rplus Rltb (D_of X) (n_rows X) (k_of k) (last tr (choice, b)))
    by (apply ok_last; assumption).
  destruct (finalize_spec R 0%R Rplus Rltb (D_of X) (n_rows X) (k_of k) Hsq Hk
              (fst (last tr (choice, b))) (proj1 Hlast)) as (C & Hf & _).
  eexists. apply cluster_PAM_returns with (st := last tr (choice, b)); [exact Hv | | exact Hf].
  unfold optimize. destruct Hok as [_ Hcost]. simpl in Hcost. rewrite Hcost. cbn [bind].
  rewrite pam_trace_last, Htr. reflexivity.
Qed.

Lemma X13_witness :
  valid_input X_tie (PyInt 2) = true /\
  is_choice (n_rows X_tie) (k_of (PyInt 2)) [0; 1] /\
  exists r, cluster_PAM (S (n_rows X_tie ^ k_of (PyInt 2))) [0; 1] X_tie (PyInt 2) = completed r.
Proof.
  assert (H1 : valid_input X_tie (PyInt 2) = true) by reflexivity.
  assert (H2 : is_choice (n_rows X_tie) (k_of (PyInt 2)) [0; 1]) by choice_ok.
  split; [exact H1|]. split; [exact H2|].
  exact (X13_pass_bound X_tie (PyInt 2) [0; 1] H1 H2).
Defined.

(** X14: the cost depends on which points are medoids, not on the order
    of the medoid list: two arrangements of the same [k] distinct indices
    have the same cost, and computing it raises nothing. *)
Theorem X14_cost_order_independent (X k : pyobj) (M M' : list nat) :
  valid_input X k = true -> valid_medoids (n_rows X) (k_of k) M -> Permutation M M' ->
  exists c, cost_on X M = Returned c /\ cost_on X M' = Returned c.
Proof.
  intros Hv HM Hp.
  pose proof (D_of_square X) as Hsq. pose proof (k_of_pos X k Hv) as [Hk _].
  exists (cost_of 0%R Rplus Rltb (D_of X) M). unfold cost_on. split.
  - apply (valid_cost R 0%R Rplus Rltb (D_of X) (n_rows X) (k_of k) Hsq Hk M HM).
  - rewrite (cost_of_Permutation R 0%R Rplus Rltb Rltb_irrefl Rltb_trans Rltb_total
               (D_of X) M M' Hp).
    apply (valid_cost R 0%R Rplus Rltb (D_of X) (n_rows X) (k_of k) Hsq Hk M').
    apply valid_Permutation with M; assumption.
Qed.

Lemma X14_witness :
  valid_input X_tie (PyInt 2) = true /\
  valid_medoids (n_rows X_tie) (k_of (PyInt 2)) [2; 1] /\ Permutation [2; 1] [1; 2] /\
  exists c, cost_on X_tie [2; 1] = Returned c /\ cost_on X_tie [1; 2] = Returned c.
Proof.
  assert (H1 : valid_input X_tie (PyInt 2) = true) by reflexivity.
  assert (H2 : valid_medoids (n_rows X_tie) (k_of (PyInt 2)) [2; 1]) by choice_ok.
  assert (H3 : Permutation [2; 1] [1; 2]) by apply perm_swap.
  split; [exact H1|]. split; [exact H2|]. split; [exact H3|].
  exact (X14_cost_order_independent X_tie (PyInt 2) [2; 1] [1; 2] H1 H2 H3).
Defined.
